(** * gemini-cli-mcp: the line framer, the subprocess supervisor and the
      request orchestrator, embedded from [src/index.ts] and
      [src/gemini-cli.ts].

    JavaScript strings are sequences of UTF-16 code units, Buffers are
    sequences of bytes.  The built-ins of the runtime that the two files
    call ([String.prototype.trim], [split], [includes], [substring],
    [Buffer.prototype.toString], [Buffer.from]) are modelled in [Module JS]
    after ECMA-262 and the WHATWG UTF-8 decoder; [JSON.parse] and
    [toLowerCase] are parameters of the sections that use them, with an
    executable instance of each for the concrete scenarios. *)

From Stdlib Require Import List ZArith NArith Bool Lia String Ascii.
From Stdlib Require Import Strings.Byte DecimalString.
Import ListNotations.

(* ================================================================== *)
(** ** The runtime: strings, buffers, completions                      *)
(* ================================================================== *)

Module JS.

Local Open Scope N_scope.

(** A string is a list of UTF-16 code units. *)
Definition jsstring := list N.

(** A Buffer is a list of bytes. *)
Definition Buffer := list byte.

(** Source literals.  [str] reads an ASCII literal; in [quoted] an
    apostrophe of the literal stands for the double quote U+0022. *)
Definition str (s : string) : jsstring :=
  map N_of_ascii (list_ascii_of_string s).

Definition quote_unit (c : N) : N := if c =? 0x27 then 0x22 else c.

Definition quoted (s : string) : jsstring := map quote_unit (str s).

Definition bytes_of_units (s : jsstring) : Buffer :=
  map (fun c => match Byte.of_N c with Some b => b | None => x00 end) s.

Definition LF : N := 0x0A.

(** *** [String.prototype.trim] (ECMA-262, WhiteSpace and LineTerminator) *)

Definition isWhiteSpace (c : N) : bool :=
  (c =? 0x09) || (c =? 0x0B) || (c =? 0x0C) || (c =? 0x20) || (c =? 0xA0)
  || (c =? 0x1680) || ((0x2000 <=? c) && (c <=? 0x200A))
  || (c =? 0x202F) || (c =? 0x205F) || (c =? 0x3000) || (c =? 0xFEFF).

Definition isLineTerminator (c : N) : bool :=
  (c =? 0x0A) || (c =? 0x0D) || (c =? 0x2028) || (c =? 0x2029).

Definition isTrimmed (c : N) : bool := isWhiteSpace c || isLineTerminator c.

Fixpoint trimStart (s : jsstring) : jsstring :=
  match s with
  | [] => []
  | c :: r => if isTrimmed c then trimStart r else s
  end.

Definition trimEnd (s : jsstring) : jsstring := rev (trimStart (rev s)).

Definition trim (s : jsstring) : jsstring := trimEnd (trimStart s).

(** *** [split] on a one-unit separator, [pop], [includes], [substring] *)

Fixpoint split (sep : N) (s : jsstring) : list jsstring :=
  match s with
  | [] => [[]]
  | c :: r =>
      if c =? sep then [] :: split sep r
      else match split sep r with
           | seg :: segs => (c :: seg) :: segs
           | [] => [[c]]
           end
  end.

(** [Array.prototype.pop]: the removed last element ([None] for
    [undefined]) and the array that remains. *)
Definition pop {A : Type} (a : list A) : option A * list A :=
  match rev a with
  | [] => (None, [])
  | x :: r => (Some x, rev r)
  end.

Fixpoint startsWith (s needle : jsstring) : bool :=
  match needle, s with
  | [], _ => true
  | _ :: _, [] => false
  | a :: n', b :: s' => (a =? b) && startsWith s' n'
  end.

Fixpoint includes (s needle : jsstring) : bool :=
  startsWith s needle
  || match s with
     | [] => false
     | _ :: r => includes r needle
     end.

(** [toLowerCase] on the ASCII letters; units outside A..Z are left as
    they are.  It stands for the Unicode mapping of the engine wherever a
    concrete run is evaluated on ASCII text. *)
Definition toLowerCase_ascii (s : jsstring) : jsstring :=
  map (fun c => if (0x41 <=? c) && (c <=? 0x5A) then c + 0x20 else c) s.

(** [s.substring(0, n)] for a non-negative integer [n]. *)
Definition substring0 (n : nat) (s : jsstring) : jsstring := firstn n s.

(** [x || y] on strings: the empty string is the only falsy string. *)
Definition or_else (x y : jsstring) : jsstring :=
  match x with [] => y | _ :: _ => x end.

(** Template interpolation of an integer. *)
Definition Number_toString (z : Z) : jsstring :=
  str (NilZero.string_of_int (Z.to_int z)).

(** *** [Buffer.prototype.toString()]: UTF-8 decoding with U+FFFD
    replacement of every maximal ill-formed subpart (WHATWG decoder). *)

Definition REPLACEMENT : N := 0xFFFD.

Inductive Utf8State : Type :=
| Idle
| Pending (code_point : N) (bytes_left : nat) (lower upper : N).

Definition utf16_of_code_point (cp : N) : jsstring :=
  if cp <=? 0xFFFF then [cp]
  else let v := cp - 0x10000 in
       [0xD800 + N.shiftr v 10; 0xDC00 + N.land v 0x3FF].

Definition utf8_lead (b : N) : Utf8State * jsstring :=
  if b <=? 0x7F then (Idle, [b])
  else if (0xC2 <=? b) && (b <=? 0xDF) then
    (Pending (N.land b 0x1F) 1 0x80 0xBF, [])
  else if (0xE0 <=? b) && (b <=? 0xEF) then
    (Pending (N.land b 0x0F) 2
       (if b =? 0xE0 then 0xA0 else 0x80)
       (if b =? 0xED then 0x9F else 0xBF), [])
  else if (0xF0 <=? b) && (b <=? 0xF4) then
    (Pending (N.land b 0x07) 3
       (if b =? 0xF0 then 0x90 else 0x80)
       (if b =? 0xF4 then 0x8F else 0xBF), [])
  else (Idle, [REPLACEMENT]).

Definition utf8_step (st : Utf8State) (b : N) : Utf8State * jsstring :=
  match st with
  | Idle => utf8_lead b
  | Pending cp k lo hi =>
      if (lo <=? b) && (b <=? hi) then
        let cp' := N.lor (N.shiftl cp 6) (N.land b 0x3F) in
        match k with
        | S (S k') => (Pending cp' (S k') 0x80 0xBF, [])
        | _ => (Idle, utf16_of_code_point cp')
        end
      else
        let (st', out) := utf8_lead b in (st', REPLACEMENT :: out)
  end.

Fixpoint utf8_decode (st : Utf8State) (bs : Buffer) : jsstring :=
  match bs with
  | [] => match st with Idle => [] | Pending _ _ _ _ => [REPLACEMENT] end
  | b :: r =>
      let (st', out) := utf8_step st (Byte.to_N b) in
      out ++ utf8_decode st' r
  end.

Definition Buffer_toString (b : Buffer) : jsstring := utf8_decode Idle b.

(** The state in which the decoder is left by a run of bytes; [Idle]
    means that the run ends at a character boundary. *)
Fixpoint utf8_final (st : Utf8State) (bs : Buffer) : Utf8State :=
  match bs with
  | [] => st
  | b :: r => utf8_final (fst (utf8_step st (Byte.to_N b))) r
  end.

(** The states the decoder reaches: the next byte is expected within
    0x80..0xBF, and the code point under construction is already known to
    end above U+000F. *)
Definition utf8_ok (st : Utf8State) : bool :=
  match st with
  | Idle => true
  | Pending cp _ lo hi =>
      (0x80 <=? lo) && (hi <=? 0xBF) && ((1 <=? cp) || (0x90 <=? lo))
  end.

Definition no_LF (s : jsstring) : bool := forallb (fun c => negb (c =? LF)) s.

(** *** [Buffer.from(string)]: UTF-8 encoding; a lone surrogate is
    encoded as U+FFFD. *)

Definition isHighSurrogate (c : N) : bool := (0xD800 <=? c) && (c <=? 0xDBFF).
Definition isLowSurrogate (c : N) : bool := (0xDC00 <=? c) && (c <=? 0xDFFF).

Definition utf8_of_code_point (cp : N) : list N :=
  if cp <=? 0x7F then [cp]
  else if cp <=? 0x7FF then
    [0xC0 + N.shiftr cp 6; 0x80 + N.land cp 0x3F]
  else if cp <=? 0xFFFF then
    [0xE0 + N.shiftr cp 12; 0x80 + N.land (N.shiftr cp 6) 0x3F;
     0x80 + N.land cp 0x3F]
  else
    [0xF0 + N.shiftr cp 18; 0x80 + N.land (N.shiftr cp 12) 0x3F;
     0x80 + N.land (N.shiftr cp 6) 0x3F; 0x80 + N.land cp 0x3F].

Fixpoint utf8_encode (s : jsstring) : list N :=
  match s with
  | [] => []
  | c :: r =>
      if isHighSurrogate c then
        match r with
        | d :: r' =>
            if isLowSurrogate d then
              utf8_of_code_point
                (0x10000 + (c - 0xD800) * 0x400 + (d - 0xDC00))
              ++ utf8_encode r'
            else utf8_of_code_point REPLACEMENT ++ utf8_encode r
        | [] => utf8_of_code_point REPLACEMENT
        end
      else if isLowSurrogate c then
        utf8_of_code_point REPLACEMENT ++ utf8_encode r
      else utf8_of_code_point c ++ utf8_encode r
  end.

Definition Buffer_from (s : jsstring) : Buffer :=
  bytes_of_units (utf8_encode s).

(** *** Completions of a call: normal return, or a thrown value.  A thrown
    [Error] carries its [message]; anything else thrown is [OtherValue]. *)

Inductive Thrown : Type :=
| ErrorObject (message : jsstring)
| OtherValue.

Inductive Completion : Type :=
| Returns
| Throws (e : Thrown).

End JS.

(* ================================================================== *)
(** ** [src/gemini-cli.ts]: the subprocess supervisor                  *)
(* ================================================================== *)

Module GeminiCli.

Import JS.

(** [GeminiCliResult] of [types.ts]; the optional fields are options. *)
Record GeminiCliResult : Type := {
  success : bool;
  output : jsstring;
  error : option jsstring;
  exitCode : option Z
}.

(** [GeminiError]: an [Error] with an optional [code]. *)
Record GeminiError : Type := {
  code : option jsstring;
  message : jsstring
}.

Definition COMMAND_TIMEOUT_MS : Z := 10000.

Definition timed_out_message : jsstring :=
  str "Command timed out after "
  ++ Number_toString (COMMAND_TIMEOUT_MS / 1000) ++ str " seconds".

Inductive Signal : Type := SIGKILL.

(** What the runtime can deliver to one invocation: output chunks, the
    [close] event with its exit code ([None] is [null], a child ended by a
    signal), the [error] event, and the expiry of the timer. *)
Inductive ChildEvent : Type :=
| StdoutData (data : Buffer)
| StderrData (data : Buffer)
| Close (code : option Z)
| ChildError (err : GeminiError)
| TimerFired.

(** The variables captured by the closures of the promise executor,
    together with what they did to the outside: the signals sent to the
    child and every value handed to [resolve], in order. *)
Record Invocation : Type := {
  isResolved : bool;
  stdout : jsstring;
  stderr : jsstring;
  timerArmed : bool;
  kills : list Signal;
  resolutions : list GeminiCliResult
}.

Definition spawned : Invocation :=
  {| isResolved := false; stdout := []; stderr := [];
     timerArmed := true; kills := []; resolutions := [] |}.

(** [code || d] on a [number | null]. *)
Definition code_or (code : option Z) (d : Z) : Z :=
  match code with
  | Some c => if (c =? 0)%Z then d else c
  | None => d
  end.

(** [`${code}`] on a [number | null]. *)
Definition code_toString (code : option Z) : jsstring :=
  match code with
  | Some c => Number_toString c
  | None => str "null"
  end.

Definition is_zero (code : option Z) : bool :=
  match code with
  | Some c => (c =? 0)%Z
  | None => false
  end.

(** The value the [close] handler resolves with. *)
Definition close_result (code : option Z) (out err : jsstring)
  : GeminiCliResult :=
  if is_zero code then
    match trim out with
    | (_ :: _) as output =>
        {| success := true; output := output;
           error := None; exitCode := None |}
    | [] =>
        {| success := false; output := [];
           error := Some (str "Gemini CLI returned empty response");
           exitCode := Some (code_or code 0) |}
    end
  else
    {| success := false; output := trim out;
       error := Some (or_else (trim err)
                        (str "Command failed with exit code "
                         ++ code_toString code));
       exitCode := Some (code_or code 1) |}.

Definition unit_eqb (a b : jsstring) : bool :=
  if list_eq_dec N.eq_dec a b then true else false.

Definition has_code (e : GeminiError) (c : string) : bool :=
  match code e with
  | Some k => unit_eqb k (str c)
  | None => false
  end.

Definition error_message (e : GeminiError) : jsstring :=
  if has_code e "ENOENT" then
    str "Gemini CLI not found. Please ensure it is installed and in your PATH."
  else if has_code e "ETIMEDOUT" then timed_out_message
  else str "Command execution error: " ++ message e.

(** The value the [error] handler resolves with. *)
Definition error_result (e : GeminiError) : GeminiCliResult :=
  {| success := false; output := [];
     error := Some (error_message e); exitCode := Some 1%Z |}.

(** The value the timeout callback resolves with. *)
Definition timeout_result : GeminiCliResult :=
  {| success := false; output := [];
     error := Some timed_out_message; exitCode := Some 124%Z |}.

(** The four callbacks. *)
Definition onTimeout (st : Invocation) : Invocation :=
  if isResolved st then st
  else {| isResolved := true; stdout := stdout st; stderr := stderr st;
          timerArmed := timerArmed st;
          kills := kills st ++ [SIGKILL];
          resolutions := resolutions st ++ [timeout_result] |}.

Definition onClose (c : option Z) (st : Invocation) : Invocation :=
  if isResolved st then st
  else {| isResolved := true; stdout := stdout st; stderr := stderr st;
          timerArmed := false;
          kills := kills st;
          resolutions :=
            resolutions st ++ [close_result c (stdout st) (stderr st)] |}.

Definition onError (e : GeminiError) (st : Invocation) : Invocation :=
  if isResolved st then st
  else {| isResolved := true; stdout := stdout st; stderr := stderr st;
          timerArmed := false;
          kills := kills st;
          resolutions := resolutions st ++ [error_result e] |}.

Definition onStdout (d : Buffer) (st : Invocation) : Invocation :=
  {| isResolved := isResolved st;
     stdout := stdout st ++ Buffer_toString d; stderr := stderr st;
     timerArmed := timerArmed st; kills := kills st;
     resolutions := resolutions st |}.

Definition onStderr (d : Buffer) (st : Invocation) : Invocation :=
  {| isResolved := isResolved st;
     stdout := stdout st; stderr := stderr st ++ Buffer_toString d;
     timerArmed := timerArmed st; kills := kills st;
     resolutions := resolutions st |}.

(** A one-shot timer runs its callback only while it is armed. *)
Definition disarm (st : Invocation) : Invocation :=
  {| isResolved := isResolved st; stdout := stdout st; stderr := stderr st;
     timerArmed := false; kills := kills st;
     resolutions := resolutions st |}.

Definition dispatch (st : Invocation) (ev : ChildEvent) : Invocation :=
  match ev with
  | StdoutData d => onStdout d st
  | StderrData d => onStderr d st
  | Close c => onClose c st
  | ChildError e => onError e st
  | TimerFired => if timerArmed st then onTimeout (disarm st) else st
  end.

Definition deliver (st : Invocation) (evs : list ChildEvent) : Invocation :=
  fold_left dispatch evs st.

(** A promise keeps the value of the first [resolve]. *)
Definition promised (st : Invocation) : option GeminiCliResult :=
  hd_error (resolutions st).

(** A state in which the promise is resolved and the timer is off. *)
Definition is_settled (st : Invocation) : Prop :=
  isResolved st = true /\ timerArmed st = false.

(** An event that streams output, as opposed to one of the three racing
    sources of a resolution. *)
Definition is_data (ev : ChildEvent) : bool :=
  match ev with
  | StdoutData _ | StderrData _ => true
  | _ => false
  end.

(** The outcome an event produces when it is the first of the three
    sources to fire, on the output collected so far. *)
Definition first_outcome (ev : ChildEvent) (st : Invocation)
  : option GeminiCliResult :=
  match ev with
  | Close c => Some (close_result c (stdout st) (stderr st))
  | ChildError e => Some (error_result e)
  | TimerFired => Some timeout_result
  | StdoutData _ | StderrData _ => None
  end.

(** The first event of a sequence that is not an output chunk, if there
    is one. *)
Definition decisive (evs : list ChildEvent) : option ChildEvent :=
  find (fun ev => negb (is_data ev)) evs.

(** The text the [data] listeners have appended to [stdout] and to
    [stderr] over a sequence of events. *)
Definition collected_stdout (evs : list ChildEvent) : jsstring :=
  flat_map (fun ev => match ev with
                      | StdoutData d => Buffer_toString d
                      | _ => []
                      end) evs.

Definition collected_stderr (evs : list ChildEvent) : jsstring :=
  flat_map (fun ev => match ev with
                      | StderrData d => Buffer_toString d
                      | _ => []
                      end) evs.

(** The shape every result is expected to have: a success carries a
    non-empty output and no error, a failure carries a non-empty error. *)
Definition well_formed (r : GeminiCliResult) : Prop :=
  (success r = true -> output r <> [] /\ error r = None)
  /\ (success r = false -> exists e, error r = Some e /\ e <> []).

(** *** [sanitizePrompt] *)

(** [/\0/g] *)
Definition is_null_byte (c : N) : bool := (c =? 0)%N.

(** [/[\x00-\x08\x0B\x0C\x0E-\x1F\x7F]/g] *)
Definition in_control_class (c : N) : bool :=
  ((0x00 <=? c) && (c <=? 0x08) || (c =? 0x0B) || (c =? 0x0C)
   || (0x0E <=? c) && (c <=? 0x1F) || (c =? 0x7F))%N.

(** [s.replace(re, '')] for a global one-unit character class. *)
Definition remove_all (cls : N -> bool) (s : jsstring) : jsstring :=
  filter (fun c => negb (cls c)) s.

Definition sanitizePrompt (prompt : jsstring) : jsstring :=
  trim (remove_all in_control_class (remove_all is_null_byte prompt)).

(** The control characters in the wording of the sanitization contract:
    C0 (U+0000 to U+001F), DEL (U+007F) and C1 (U+0080 to U+009F). *)
Definition is_C0 (c : N) : bool := (c <=? 0x1F)%N.
Definition is_DEL (c : N) : bool := (c =? 0x7F)%N.
Definition is_C1 (c : N) : bool := ((0x80 <=? c) && (c <=? 0x9F))%N.

Definition free_of_controls (s : jsstring) : bool :=
  forallb (fun c => negb (is_C0 c || is_DEL c || is_C1 c)) s.

(** No leading and no trailing unit that [trim] would strip. *)
Definition no_outer_whitespace (s : jsstring) : Prop :=
  (forall c r, s = c :: r -> isTrimmed c = false)
  /\ (forall r c, s = r ++ [c] -> isTrimmed c = false).

(** *** [simulateGeminiResponse] and [executeGeminiCommand] *)

Section Execute.

(** [String.prototype.toLowerCase], the Unicode case mapping of the
    engine. *)
Variable toLowerCase : jsstring -> jsstring.

(** [TEST_MODE], read from the environment when the module is loaded. *)
Variable TEST_MODE : bool.

Definition ellipsis_after (n : nat) (prompt : jsstring) : jsstring :=
  if (n <? List.length prompt)%nat then str "..." else [].

Definition truthy (m : option jsstring) : option jsstring :=
  match m with
  | Some (_ :: _) => m
  | _ => None
  end.

Definition simulated_text (prompt : jsstring) (model : option jsstring)
  : jsstring :=
  let lower := toLowerCase prompt in
  if includes lower (str "2+2") || includes lower (str "2 + 2") then
    str "2 + 2 = 4"
  else if includes lower (str "hello") then
    str "Hello! How can I help you today?"
  else if includes lower (str "test") then
    str "This is a test response from the MCP server. You asked: "
    ++ [0x22%N] ++ substring0 50 prompt ++ ellipsis_after 50 prompt
    ++ [0x22%N]
  else
    str "I received your prompt: "
    ++ [0x22%N] ++ substring0 30 prompt ++ ellipsis_after 30 prompt
    ++ [0x22%N]
    ++ match truthy model with
       | Some m => str " (using model: " ++ m ++ str ")"
       | None => []
       end
    ++ str ". This is a simulated response since Gemini CLI is in test mode.".

(** The simulated delay always elapses; the promise is fulfilled with: *)
Definition simulateGeminiResponse (prompt : jsstring)
  (model : option jsstring) : GeminiCliResult :=
  {| success := true; output := simulated_text prompt model;
     error := None; exitCode := None |}.

(** How the promise returned by [executeGeminiCommand] ends. *)
Inductive Settlement : Type :=
| Rejected (reason : jsstring)
| Fulfilled (r : GeminiCliResult)
| Unsettled.

(** One call: the processes it spawned, the signals it sent, and how its
    promise ended. *)
Record Execution : Type := {
  spawns : list (jsstring * list jsstring);
  signals : list Signal;
  settlement : Settlement
}.

Definition threw (reason : string) : Execution :=
  {| spawns := []; signals := []; settlement := Rejected (str reason) |}.

Definition selectedModel (model : option jsstring) : jsstring :=
  match truthy model with
  | Some m => m
  | None => str "gemini-2.5-flash"
  end.

Definition spawn_args (prompt : jsstring) (model : option jsstring)
  : list jsstring :=
  [str "-m"; selectedModel model; str "-p"; prompt].

Definition settled (st : Invocation) : Settlement :=
  match promised st with
  | Some r => Fulfilled r
  | None => Unsettled
  end.

(** [events] is what the runtime delivers to the child's listeners and
    the timer after the spawn.  [spawns] records the call of [spawn] with
    its arguments; the call is taken to return a child process, so what
    follows describes the runs in which [spawn] itself does not throw. *)
Definition executeGeminiCommand (prompt : jsstring)
  (model : option jsstring) (events : list ChildEvent) : Execution :=
  if TEST_MODE then
    {| spawns := []; signals := [];
       settlement := Fulfilled (simulateGeminiResponse prompt model) |}
  else
    match prompt with
    | [] => threw "Prompt is required and must be a string"
    | _ :: _ =>
        if (List.length (trim prompt) =? 0)%nat then
          threw "Prompt cannot be empty"
        else if (10000 <? Z.of_nat (List.length prompt))%Z then
          threw "Prompt is too long (max 10000 characters)"
        else
          let st := deliver spawned events in
          {| spawns := [(str "gemini", spawn_args prompt model)];
             signals := kills st;
             settlement := settled st |}
    end.

End Execute.

End GeminiCli.

(* ================================================================== *)
(** ** An executable instance of [JSON.parse]                          *)
(* ================================================================== *)

(** [JSON.parse] is used by the framer for validation only: what matters
    is whether it returns or throws.  The recognizer below follows the JSON
    grammar of ECMA-404; it instantiates the parameter [JSON_parse] of the
    framer wherever a concrete run is evaluated. *)
Module Json.

Import JS.
Local Open Scope N_scope.

Definition is_ws (c : N) : bool :=
  (c =? 0x20) || (c =? 0x09) || (c =? 0x0A) || (c =? 0x0D).

Definition is_digit (c : N) : bool := (0x30 <=? c) && (c <=? 0x39).

Definition is_hex (c : N) : bool :=
  is_digit c || (0x41 <=? c) && (c <=? 0x46) || (0x61 <=? c) && (c <=? 0x66).

(** The unit that may follow a backslash: the quote, the backslash, the
    slash, and the letters b, f, n, r, t. *)
Definition is_escape (c : N) : bool :=
  (c =? 0x22) || (c =? 0x5C) || (c =? 0x2F) || (c =? 0x62) || (c =? 0x66)
  || (c =? 0x6E) || (c =? 0x72) || (c =? 0x74).

Fixpoint skip_ws (s : jsstring) : jsstring :=
  match s with
  | [] => []
  | c :: r => if is_ws c then skip_ws r else s
  end.

Fixpoint skip_digits (s : jsstring) : jsstring :=
  match s with
  | [] => []
  | c :: r => if is_digit c then skip_digits r else s
  end.

(** Each recognizer returns what follows the phrase it accepts. *)

Definition digits1 (s : jsstring) : option jsstring :=
  match s with
  | c :: r => if is_digit c then Some (skip_digits r) else None
  | [] => None
  end.

Definition literal (word s : jsstring) : option jsstring :=
  if startsWith s word then Some (skipn (List.length word) s) else None.

(** The characters of a string, after the opening quote. *)
Fixpoint string_rest (s : jsstring) : option jsstring :=
  match s with
  | [] => None
  | c :: r =>
      if c =? 0x22 then Some r
      else if c =? 0x5C then
        match r with
        | e :: r1 =>
            if is_escape e then string_rest r1
            else if e =? 0x75 then
              match r1 with
              | h1 :: h2 :: h3 :: h4 :: r2 =>
                  if is_hex h1 && is_hex h2 && is_hex h3 && is_hex h4
                  then string_rest r2 else None
              | _ => None
              end
            else None
        | [] => None
        end
      else if c <? 0x20 then None
      else string_rest r
  end.

Definition fraction (s : jsstring) : option jsstring :=
  match s with
  | c :: r => if c =? 0x2E then digits1 r else Some s
  | [] => Some s
  end.

Definition exponent (s : jsstring) : option jsstring :=
  match s with
  | c :: r =>
      if (c =? 0x65) || (c =? 0x45) then
        match r with
        | sg :: r1 =>
            if (sg =? 0x2B) || (sg =? 0x2D) then digits1 r1 else digits1 r
        | [] => None
        end
      else Some s
  | [] => Some s
  end.

Definition integer (s : jsstring) : option jsstring :=
  match s with
  | c :: r =>
      if c =? 0x30 then Some r
      else if is_digit c then Some (skip_digits r)
      else None
  | [] => None
  end.

Definition number (s : jsstring) : option jsstring :=
  let unsigned :=
    match s with
    | c :: r => if c =? 0x2D then r else s
    | [] => s
    end in
  match integer unsigned with
  | Some r =>
      match fraction r with
      | Some r1 => exponent r1
      | None => None
      end
  | None => None
  end.

Fixpoint value (fuel : nat) (s : jsstring) {struct fuel} : option jsstring :=
  match fuel with
  | O => None
  | S f =>
      match s with
      | [] => None
      | c :: r =>
          if c =? 0x7B then
            match skip_ws r with
            | c1 :: r1 => if c1 =? 0x7D then Some r1 else members f (skip_ws r)
            | [] => None
            end
          else if c =? 0x5B then
            match skip_ws r with
            | c1 :: r1 => if c1 =? 0x5D then Some r1 else elements f (skip_ws r)
            | [] => None
            end
          else if c =? 0x22 then string_rest r
          else if c =? 0x74 then literal (str "true") s
          else if c =? 0x66 then literal (str "false") s
          else if c =? 0x6E then literal (str "null") s
          else number s
      end
  end

with elements (fuel : nat) (s : jsstring) {struct fuel} : option jsstring :=
  match fuel with
  | O => None
  | S f =>
      match value f (skip_ws s) with
      | Some r =>
          match skip_ws r with
          | c :: r1 =>
              if c =? 0x2C then elements f r1
              else if c =? 0x5D then Some r1
              else None
          | [] => None
          end
      | None => None
      end
  end

with members (fuel : nat) (s : jsstring) {struct fuel} : option jsstring :=
  match fuel with
  | O => None
  | S f =>
      match skip_ws s with
      | q :: r =>
          if q =? 0x22 then
            match string_rest r with
            | Some r1 =>
                match skip_ws r1 with
                | col :: r2 =>
                    if col =? 0x3A then
                      match value f (skip_ws r2) with
                      | Some r3 =>
                          match skip_ws r3 with
                          | c :: r4 =>
                              if c =? 0x2C then members f r4
                              else if c =? 0x7D then Some r4
                              else None
                          | [] => None
                          end
                      | None => None
                      end
                    else None
                | [] => None
                end
            | None => None
            end
          else None
      | [] => None
      end
  end.

(** A JSON text is one value between optional white space.  The fuel
    bounds the depth of the recursion; [value_fuel_enough] below shows
    that twice the length of the text is never too little. *)
Definition valid (s : jsstring) : bool :=
  match value (2 * List.length s + 2) (skip_ws s) with
  | Some r => match skip_ws r with [] => true | _ :: _ => false end
  | None => false
  end.

(** The message of the [SyntaxError] is the engine's own wording; the
    instance fixes one. *)
Definition SyntaxError_message : jsstring := str "Unexpected token in JSON".

Definition parse (s : jsstring) : Completion :=
  if valid s then Returns else Throws (ErrorObject SyntaxError_message).

End Json.

(* ================================================================== *)
(** ** [src/index.ts]: the line framer and the tool-call handler       *)
(* ================================================================== *)

Module Server.

Import JS GeminiCli.

(** *** The framer of [setupJsonValidation] *)

(** The [data] member of the parse-error envelope. *)
Record ErrorData : Type := {
  details : jsstring;
  received : jsstring
}.

(** A JSON-RPC error response; [id] is [None] for [null]. *)
Record ErrorResponse : Type := {
  jsonrpc : jsstring;
  id : option Z;
  error_code : Z;
  error_message : jsstring;
  data : option ErrorData
}.

(** What one [data] event makes the handler do, in order: calls of the
    original listeners with a Buffer, lines logged with [console.error],
    and responses written to [process.stdout] (the record stands for its
    [JSON.stringify] text and the line feed after it). *)
Inductive Output : Type :=
| Forwarded (listener : nat) (validData : Buffer)
| Logged (line : jsstring)
| Written (response : ErrorResponse).

(** A listener is a function of the runtime: called with a Buffer it
    returns or throws. *)
Definition Listener := Buffer -> Completion.

Definition EXCERPT_CAP : nat := 100.

(** [trimmed.substring(0, 100) + (trimmed.length > 100 ? '...' : '')] *)
Definition excerpt (trimmed : jsstring) : jsstring :=
  substring0 EXCERPT_CAP trimmed
  ++ (if (EXCERPT_CAP <? List.length trimmed)%nat then str "..." else []).

(** [parseError instanceof Error ? parseError.message : 'JSON parsing failed'] *)
Definition details_of (parseError : Thrown) : jsstring :=
  match parseError with
  | ErrorObject m => m
  | OtherValue => str "JSON parsing failed"
  end.

Definition PARSE_ERROR : Z := (-32700)%Z.

Definition parse_error_response (parseError : Thrown) (trimmed : jsstring)
  : ErrorResponse :=
  {| jsonrpc := str "2.0";
     id := None;
     error_code := PARSE_ERROR;
     error_message := str "Invalid JSON received";
     data := Some {| details := details_of parseError;
                     received := excerpt trimmed |} |}.

(** The [catch (parseError)] block. *)
Definition on_parse_error (parseError : Thrown) (trimmed : jsstring)
  : list Output :=
  [Logged (str "[GeminiMCP] Invalid JSON received: "
           ++ substring0 50 trimmed ++ str "...");
   Written (parse_error_response parseError trimmed)].

(** [for (const listener of originalDataListeners) listener(validData)],
    up to the first listener that throws; [i] numbers the listeners. *)
Fixpoint emit (i : nat) (ls : list Listener) (validData : Buffer)
  : list Output * Completion :=
  match ls with
  | [] => ([], Returns)
  | l :: rest =>
      match l validData with
      | Returns =>
          let (out, c) := emit (S i) rest validData in
          (Forwarded i validData :: out, c)
      | Throws e => ([Forwarded i validData], Throws e)
      end
  end.

Section Framer.

(** [JSON.parse] of the engine, as far as the handler observes it. *)
Variable JSON_parse : jsstring -> Completion.

(** [process.stdin.listeners('data')] when the handler was installed. *)
Variable originalDataListeners : list Listener.

(** The body of the loop over the complete lines. *)
Definition process_line (line : jsstring) : list Output :=
  let trimmed := trim line in
  match trimmed with
  | [] => []
  | _ :: _ =>
      match JSON_parse trimmed with
      | Throws parseError => on_parse_error parseError trimmed
      | Returns =>
          let (out, c) :=
            emit 0 originalDataListeners (Buffer_from (trimmed ++ [LF])) in
          match c with
          | Returns => out
          | Throws parseError => out ++ on_parse_error parseError trimmed
          end
      end
  end.

(** [lines.pop() || ''] *)
Definition kept_tail (last : option jsstring) : jsstring :=
  match last with
  | Some s => or_else s []
  | None => []
  end.

(** The response of the outer [catch] of the handler. *)
Definition internal_error_response : ErrorResponse :=
  {| jsonrpc := str "2.0";
     id := None;
     error_code := (-32603)%Z;
     error_message := str "Internal error processing request";
     data := None |}.

(** The [data] handler: from the buffer and a chunk to the new buffer and
    what was emitted.  What can throw in its outer [try] ([JSON.parse], a
    listener) throws inside the inner [try]; decoding, splitting and
    trimming do not throw, so [internal_error_response] is never
    written. *)
Definition onData (buffer : jsstring) (chunk : Buffer)
  : jsstring * list Output :=
  let buffer1 := buffer ++ Buffer_toString chunk in
  let (last, lines) := pop (split LF buffer1) in
  (kept_tail last, flat_map process_line lines).

(** The handler over the successive chunks of the stream. *)
Fixpoint feed (buffer : jsstring) (chunks : list Buffer)
  : jsstring * list Output :=
  match chunks with
  | [] => (buffer, [])
  | chunk :: rest =>
      let (buffer1, out1) := onData buffer chunk in
      let (buffer2, out2) := feed buffer1 rest in
      (buffer2, out1 ++ out2)
  end.

End Framer.

(** The framer in the words of its contract.  A line is blank, valid or
    malformed; a blank line emits nothing, a valid line is forwarded to
    every listener as the trimmed line and a line feed, a malformed line
    yields one error response. *)
Inductive LineKind : Type :=
| Blank
| Valid
| Malformed (parseError : Thrown).

Definition classify (JSON_parse : jsstring -> Completion) (line : jsstring)
  : LineKind :=
  match trim line with
  | [] => Blank
  | _ :: _ =>
      match JSON_parse (trim line) with
      | Returns => Valid
      | Throws e => Malformed e
      end
  end.

Definition expected_emission (JSON_parse : jsstring -> Completion)
  (listeners : nat) (line : jsstring) : list Output :=
  match classify JSON_parse line with
  | Blank => []
  | Valid =>
      map (fun i => Forwarded i (Buffer_from (trim line ++ [LF])))
        (seq 0 listeners)
  | Malformed e =>
      [Logged (str "[GeminiMCP] Invalid JSON received: "
               ++ substring0 50 (trim line) ++ str "...");
       Written {| jsonrpc := str "2.0"; id := None;
                  error_code := (-32700)%Z;
                  error_message := str "Invalid JSON received";
                  data := Some {| details := details_of e;
                                  received := excerpt (trim line) |} |}]
  end.

Definition expected_responses (JSON_parse : jsstring -> Completion)
  (line : jsstring) : list ErrorResponse :=
  match classify JSON_parse line with
  | Malformed e =>
      [{| jsonrpc := str "2.0"; id := None;
          error_code := (-32700)%Z;
          error_message := str "Invalid JSON received";
          data := Some {| details := details_of e;
                          received := excerpt (trim line) |} |}]
  | _ => []
  end.

Definition expected_forwards (JSON_parse : jsstring -> Completion)
  (line : jsstring) : list Buffer :=
  match classify JSON_parse line with
  | Valid => [Buffer_from (trim line ++ [LF])]
  | _ => []
  end.

(** A chunk made of complete lines: each line, then the byte 0x0A. *)
Definition complete_lines (ls : list Buffer) : Buffer :=
  flat_map (fun l => l ++ [x0a]) ls.

(** A listener that returns normally on every Buffer. *)
Definition returning : Listener := fun _ => Returns.

(** [process.stdin.listeners('data')] as [start] finds it: [start] calls
    [setupJsonValidation] before it creates the transport and connects
    the server, and nothing before has attached a listener to stdin, so
    the handler captures the empty list. *)
Definition listeners_at_start : list Listener := [].

(** A chunk of four complete lines: a valid one, a malformed one, an
    empty one and a valid one between spaces. *)
Definition sample_lines : list Buffer :=
  [bytes_of_units (quoted "{'a':1}"); bytes_of_units (str "oops"); [];
   bytes_of_units (str " 2 ")].

Definition no_x0a (l : Buffer) : bool :=
  forallb (fun b => negb (Byte.eqb b x0a)) l.

(** Projections of a trace. *)
Definition responses (out : list Output) : list ErrorResponse :=
  flat_map (fun o => match o with Written r => [r] | _ => [] end) out.

Definition forwarded_to (i : nat) (out : list Output) : list Buffer :=
  flat_map (fun o => match o with
                     | Forwarded j d => if (i =? j)%nat then [d] else []
                     | _ => []
                     end) out.

(** *** The [CallToolRequestSchema] handler *)

(** [ErrorCode] of the MCP SDK, with the JSON-RPC numbers it assigns. *)
Inductive ErrorCode : Type :=
| MethodNotFound
| InvalidParams
| InternalError.

Definition ErrorCode_value (c : ErrorCode) : Z :=
  match c with
  | MethodNotFound => (-32601)%Z
  | InvalidParams => (-32602)%Z
  | InternalError => (-32603)%Z
  end.

Record McpError : Type := {
  mcp_code : ErrorCode;
  mcp_message : jsstring
}.

(** A property of [request.params.arguments], as far as the schema tells
    values apart. *)
Inductive JSValue : Type :=
| JUndefined
| JNull
| JBoolean
| JNumber
| JString (s : jsstring)
| JArray
| JObject.

Record Arguments : Type := {
  arg_prompt : JSValue;
  arg_model : JSValue
}.

(** [GeminiQueryRequest] *)
Record GeminiQueryRequest : Type := {
  prompt : jsstring;
  model : option jsstring
}.

Record ZodIssue : Type := {
  path : list jsstring;
  issue_message : jsstring
}.

(** The name zod gives the type of a value in its messages. *)
Definition zod_type (v : JSValue) : jsstring :=
  match v with
  | JUndefined => str "undefined"
  | JNull => str "null"
  | JBoolean => str "boolean"
  | JNumber => str "number"
  | JString _ => str "string"
  | JArray => str "array"
  | JObject => str "object"
  end.

Definition invalid_type (p : list jsstring) (v : JSValue) : ZodIssue :=
  {| path := p;
     issue_message :=
       match v with
       | JUndefined => str "Required"
       | _ => str "Expected string, received " ++ zod_type v
       end |}.

(** [z.string().min(1, 'Prompt cannot be empty').max(10000, 'Prompt too long')] *)
Definition check_prompt (v : JSValue) : list ZodIssue :=
  match v with
  | JString s =>
      (if (Z.of_nat (List.length s) <? 1)%Z
       then [{| path := [str "prompt"];
                issue_message := str "Prompt cannot be empty" |}]
       else [])
      ++ (if (10000 <? Z.of_nat (List.length s))%Z
          then [{| path := [str "prompt"];
                   issue_message := str "Prompt too long" |}]
          else [])
  | _ => [invalid_type [str "prompt"] v]
  end.

(** [z.string().optional()] *)
Definition check_model (v : JSValue) : list ZodIssue :=
  match v with
  | JString _ | JUndefined => []
  | _ => [invalid_type [str "model"] v]
  end.

(** [GeminiQuerySchema.parse(args)]: the validated request, or the issues
    of the [ZodError] it throws. *)
Definition GeminiQuerySchema_parse (args : option Arguments)
  : list ZodIssue + GeminiQueryRequest :=
  match args with
  | None => inl [invalid_type [] JUndefined]
  | Some a =>
      match check_prompt (arg_prompt a) ++ check_model (arg_model a) with
      | [] =>
          match arg_prompt a with
          | JString p =>
              inr {| prompt := p;
                     model := match arg_model a with
                              | JString m => Some m
                              | _ => None
                              end |}
          | _ => inl [invalid_type [str "prompt"] (arg_prompt a)]
          end
      | issues => inl issues
      end
  end.

Fixpoint join (sep : jsstring) (parts : list jsstring) : jsstring :=
  match parts with
  | [] => []
  | [p] => p
  | p :: rest => p ++ sep ++ join sep rest
  end.

(** [error.errors.map(e => `${e.path.join('.')}: ${e.message}`).join(', ')] *)
Definition errorMessages (issues : list ZodIssue) : jsstring :=
  join (str ", ")
    (map (fun e => join (str ".") (path e) ++ str ": " ++ issue_message e)
       issues).

(** How one call of the handler ends. *)
Inductive HandlerResult : Type :=
| Threw (e : McpError)
| Responded (text : jsstring)
| Awaiting.

(** One call of the handler: what it logged, the call of
    [executeGeminiCommand] it made (if it made one), and how it ended. *)
Record HandlerRun : Type := {
  logs : list jsstring;
  execution : option Execution;
  result : HandlerResult
}.

Section CallTool.

Variable toLowerCase : jsstring -> jsstring.
Variable TEST_MODE : bool.

Definition modelInfo (m : option jsstring) : jsstring :=
  match truthy m with
  | Some v => str " (model: " ++ v ++ str ")"
  | None => []
  end.

Definition callTool (name : jsstring) (args : option Arguments)
  (events : list ChildEvent) : HandlerRun :=
  if negb (unit_eqb name (str "gemini_query")) then
    {| logs := []; execution := None;
       result := Threw {| mcp_code := MethodNotFound;
                          mcp_message := str "Unknown tool: " ++ name |} |}
  else
    match GeminiQuerySchema_parse args with
    | inl issues =>
        {| logs := []; execution := None;
           result :=
             Threw {| mcp_code := InvalidParams;
                      mcp_message :=
                        str "Invalid parameters: " ++ errorMessages issues |}
        |}
    | inr validatedArgs =>
        let sanitizedPrompt := sanitizePrompt (prompt validatedArgs) in
        let log :=
          str "[GeminiMCP] Executing query" ++ modelInfo (model validatedArgs)
          ++ str ": " ++ substring0 100 sanitizedPrompt ++ str "..." in
        let run :=
          executeGeminiCommand toLowerCase TEST_MODE sanitizedPrompt
            (model validatedArgs) events in
        match settlement run with
        | Rejected errorMessage =>
            {| logs := [log; str "[GeminiMCP] Error: " ++ errorMessage];
               execution := Some run;
               result :=
                 Threw {| mcp_code := InternalError;
                          mcp_message :=
                            str "Failed to execute Gemini query: "
                            ++ errorMessage |} |}
        | Fulfilled r =>
            {| logs := [log]; execution := Some run;
               result :=
                 if success r then Responded (output r)
                 else
                   Threw {| mcp_code := InternalError;
                            mcp_message :=
                              str "Gemini CLI error: "
                              ++ match truthy (error r) with
                                 | Some e => e
                                 | None => str "Unknown error"
                                 end |} |}
        | Unsettled =>
            {| logs := [log]; execution := Some run; result := Awaiting |}
        end
    end.

End CallTool.

(** *** The [ListToolsRequestSchema] handler *)

Record PromptProperty : Type := {
  prompt_type : jsstring;
  prompt_description : jsstring;
  minLength : Z;
  maxLength : Z
}.

Record ModelProperty : Type := {
  model_type : jsstring;
  model_description : jsstring;
  model_examples : list jsstring;
  model_default : jsstring
}.

Record InputSchema : Type := {
  schema_type : jsstring;
  property_prompt : PromptProperty;
  property_model : ModelProperty;
  required : list jsstring
}.

Record Tool : Type := {
  tool_name : jsstring;
  tool_description : jsstring;
  inputSchema : InputSchema
}.

(** The [tools] array the handler returns. *)
Definition listTools : list Tool :=
  [{| tool_name := str "gemini_query";
      tool_description :=
        str "Execute a query using the local Gemini CLI tool";
      inputSchema :=
        {| schema_type := str "object";
           property_prompt :=
             {| prompt_type := str "string";
                prompt_description :=
                  str "The text prompt to send to Gemini AI";
                minLength := 1%Z;
                maxLength := 10000%Z |};
           property_model :=
             {| model_type := str "string";
                model_description :=
                  str "Optional Gemini model to use (defaults to gemini-2.5-flash)";
                model_examples := [str "gemini-2.5-flash"];
                model_default := str "gemini-2.5-flash" |};
           required := [str "prompt"] |} |}].

End Server.

(* ================================================================== *)
(** ** Facts about the runtime functions                               *)
(* ================================================================== *)

Import JS.

Lemma str_cons_nonempty (a : ascii) (s : string) (rest : jsstring) :
  str (String a s) ++ rest <> [].
Proof. discriminate. Qed.

Lemma or_else_nonempty (x y : jsstring) : y <> [] -> or_else x y <> [].
Proof. destruct x; simpl; [trivial | discriminate]. Qed.

(** [trimStart] removes a prefix of strippable units and stops at a unit
    that is not strippable. *)
Lemma trimStart_prefix (s : jsstring) :
  exists p, s = p ++ trimStart s /\ forallb isTrimmed p = true.
Proof.
  induction s as [|c r [p [Hp Hall]]]; simpl.
  - exists []. auto.
  - destruct (isTrimmed c) eqn:Hc.
    + exists (c :: p). simpl. rewrite Hc, Hall. split; [congruence | reflexivity].
    + exists []. auto.
Qed.

Lemma trimStart_head (s : jsstring) (c : N) (r : jsstring) :
  trimStart s = c :: r -> isTrimmed c = false.
Proof.
  induction s as [|a s IH]; simpl; [discriminate|].
  destruct (isTrimmed a) eqn:Ha; [exact IH|].
  intros H. injection H as -> _. exact Ha.
Qed.

Lemma trimStart_all (s : jsstring) :
  forallb isTrimmed s = true -> trimStart s = [].
Proof.
  induction s as [|a s IH]; simpl; [reflexivity|].
  destruct (isTrimmed a); simpl; [exact IH | discriminate].
Qed.

Lemma trimStart_keeps (c : N) (r : jsstring) :
  isTrimmed c = false -> trimStart (c :: r) = c :: r.
Proof. intros H. simpl. now rewrite H. Qed.

(** [trimEnd] removes a suffix of strippable units. *)
Lemma trimEnd_suffix (s : jsstring) :
  exists q, s = trimEnd s ++ q /\ forallb isTrimmed q = true.
Proof.
  unfold trimEnd.
  destruct (trimStart_prefix (rev s)) as [p [Hp Hall]].
  exists (rev p). split.
  - rewrite <- rev_app_distr, <- Hp. now rewrite rev_involutive.
  - rewrite forallb_forall in *. intros x Hx. apply Hall.
    now apply in_rev.
Qed.

Lemma trimEnd_last (s r : jsstring) (c : N) :
  trimEnd s = r ++ [c] -> isTrimmed c = false.
Proof.
  unfold trimEnd. intros H.
  apply (f_equal (@rev N)) in H.
  rewrite rev_involutive, rev_app_distr in H. simpl in H.
  exact (trimStart_head _ _ _ H).
Qed.

Lemma trimEnd_head (s : jsstring) (c : N) (r : jsstring) :
  trimEnd s = c :: r -> exists r', s = c :: r'.
Proof.
  intros H. destruct (trimEnd_suffix s) as [q [Hq _]].
  rewrite H in Hq. simpl in Hq. eauto.
Qed.

Lemma trim_head (s : jsstring) (c : N) (r : jsstring) :
  trim s = c :: r -> isTrimmed c = false.
Proof.
  unfold trim. intros H.
  destruct (trimEnd_head _ _ _ H) as [r' Hr'].
  exact (trimStart_head _ _ _ Hr').
Qed.

Lemma trim_last (s r : jsstring) (c : N) :
  trim s = r ++ [c] -> isTrimmed c = false.
Proof. unfold trim. apply trimEnd_last. Qed.

Lemma trim_all_whitespace (s : jsstring) :
  forallb isTrimmed s = true -> trim s = [].
Proof.
  intros H. unfold trim. rewrite (trimStart_all _ H). reflexivity.
Qed.

(** Every unit of [trim s] is a unit of [s]. *)
Lemma trim_incl (s : jsstring) (c : N) : In c (trim s) -> In c s.
Proof.
  unfold trim. intros H.
  destruct (trimEnd_suffix (trimStart s)) as [q [Hq _]].
  destruct (trimStart_prefix s) as [p [Hp _]].
  rewrite Hp. apply in_or_app. right.
  rewrite Hq. apply in_or_app. now left.
Qed.

(** A unit that [trim] does not strip is kept wherever it stands. *)
Lemma trim_keeps (s : jsstring) (c : N) :
  In c s -> isTrimmed c = false -> In c (trim s).
Proof.
  unfold trim. intros Hin Hc.
  destruct (trimStart_prefix s) as [p [Hp Hallp]].
  destruct (trimEnd_suffix (trimStart s)) as [q [Hq Hallq]].
  rewrite forallb_forall in Hallp, Hallq.
  rewrite Hp in Hin. apply in_app_or in Hin as [Hin | Hin].
  - specialize (Hallp _ Hin). congruence.
  - rewrite Hq in Hin. apply in_app_or in Hin as [Hin | Hin]; [exact Hin|].
    specialize (Hallq _ Hin). congruence.
Qed.

Lemma trim_length (s : jsstring) :
  (List.length (trim s) <= List.length s)%nat.
Proof.
  unfold trim.
  destruct (trimEnd_suffix (trimStart s)) as [q [Hq _]].
  destruct (trimStart_prefix s) as [p [Hp _]].
  rewrite Hp at 2. rewrite Hq at 2.
  rewrite !length_app. lia.
Qed.

(* ================================================================== *)
(** ** The JSON recognizer does not depend on its fuel                 *)
(* ================================================================== *)

Section JsonFuel.

Import Json.

Ltac break_in H :=
  match type of H with
  | context [match ?x with _ => _ end] => destruct x eqn:?
  end.

Lemma skip_ws_length (s : jsstring) :
  (List.length (skip_ws s) <= List.length s)%nat.
Proof.
  induction s as [|c s IH]; simpl; [lia|].
  destruct (is_ws c); simpl; lia.
Qed.

Lemma skip_ws_cons_length (s : jsstring) (c : N) (r : jsstring) :
  skip_ws s = c :: r -> (List.length r < List.length s)%nat.
Proof.
  intros H. pose proof (skip_ws_length s) as Hl. rewrite H in Hl.
  simpl in Hl. lia.
Qed.

Lemma skip_digits_length (s : jsstring) :
  (List.length (skip_digits s) <= List.length s)%nat.
Proof.
  induction s as [|c s IH]; simpl; [lia|].
  destruct (is_digit c); simpl; lia.
Qed.

Lemma digits1_shorter (s r : jsstring) :
  digits1 s = Some r -> (List.length r < List.length s)%nat.
Proof.
  destruct s as [|c s]; simpl; [discriminate|].
  destruct (is_digit c); [|discriminate].
  intros H. injection H as <-. pose proof (skip_digits_length s). lia.
Qed.

Lemma string_rest_shorter (n : nat) :
  forall s r,
    (List.length s <= n)%nat ->
    string_rest s = Some r -> (List.length r < List.length s)%nat.
Proof.
  induction n as [|n IH]; intros s r Hn H.
  - destruct s; [discriminate | simpl in Hn; lia].
  - destruct s as [|c s]; [discriminate|].
    simpl in Hn. simpl in H.
    repeat break_in H; try discriminate;
      try (injection H as <-; simpl; lia);
      subst; simpl in *;
      match goal with
      | H : string_rest ?x = Some _ |- _ =>
          apply IH in H; simpl in *; lia
      end.
Qed.

Lemma literal_shorter (c : N) (w s r : jsstring) :
  literal (c :: w) s = Some r -> (List.length r < List.length s)%nat.
Proof.
  unfold literal. destruct (startsWith s (c :: w)) eqn:Hs; [|discriminate].
  intros H. injection H as <-.
  destruct s as [|a s]; [discriminate|].
  rewrite length_skipn. simpl. lia.
Qed.

Lemma number_shorter (s r : jsstring) :
  number s = Some r -> (List.length r < List.length s)%nat.
Proof.
  unfold number.
  set (u := match s with
            | [] => s
            | c :: r0 => if (c =? 45)%N then r0 else s
            end).
  assert (Hu : (List.length u <= List.length s)%nat).
  { subst u. destruct s as [|c s]; [lia|].
    destruct (c =? 45)%N; simpl; lia. }
  destruct (integer u) as [r1|] eqn:Hi; [|discriminate].
  assert (H1 : (List.length r1 < List.length u)%nat).
  { unfold integer in Hi. destruct u as [|c u']; [discriminate|].
    destruct (c =? 48)%N.
    - injection Hi as <-. simpl. lia.
    - destruct (is_digit c); [|discriminate]. injection Hi as <-.
      pose proof (skip_digits_length u'). simpl. lia. }
  destruct (fraction r1) as [r2|] eqn:Hf; [|discriminate].
  assert (H2 : (List.length r2 <= List.length r1)%nat).
  { unfold fraction in Hf. destruct r1 as [|c r1']; [injection Hf as <-; lia|].
    destruct (c =? 46)%N.
    - apply digits1_shorter in Hf. simpl. lia.
    - injection Hf as <-. lia. }
  intros He.
  assert (H3 : (List.length r <= List.length r2)%nat).
  { unfold exponent in He. destruct r2 as [|c r2']; [injection He as <-; lia|].
    destruct ((c =? 101)%N || (c =? 69)%N).
    - destruct r2' as [|sg r3]; [discriminate|].
      destruct ((sg =? 43)%N || (sg =? 45)%N);
        apply digits1_shorter in He; simpl in *; lia.
    - injection He as <-. lia. }
  lia.
Qed.


Lemma value_cases (f : nat) (s : jsstring) :
  value (S f) s =
  match s with
  | [] => None
  | c :: r =>
      if (c =? 0x7B)%N then
        match skip_ws r with
        | c1 :: r1 => if (c1 =? 0x7D)%N then Some r1 else members f (skip_ws r)
        | [] => None
        end
      else if (c =? 0x5B)%N then
        match skip_ws r with
        | c1 :: r1 => if (c1 =? 0x5D)%N then Some r1 else elements f (skip_ws r)
        | [] => None
        end
      else if (c =? 0x22)%N then string_rest r
      else if (c =? 0x74)%N then literal (str "true") s
      else if (c =? 0x66)%N then literal (str "false") s
      else if (c =? 0x6E)%N then literal (str "null") s
      else number s
  end.
Proof. reflexivity. Qed.

Lemma elements_cases (f : nat) (s : jsstring) :
  elements (S f) s =
  match value f (skip_ws s) with
  | Some r =>
      match skip_ws r with
      | c :: r1 =>
          if (c =? 0x2C)%N then elements f r1
          else if (c =? 0x5D)%N then Some r1
          else None
      | [] => None
      end
  | None => None
  end.
Proof. reflexivity. Qed.

Lemma members_cases (f : nat) (s : jsstring) :
  members (S f) s =
  match skip_ws s with
  | q :: r =>
      if (q =? 0x22)%N then
        match string_rest r with
        | Some r1 =>
            match skip_ws r1 with
            | col :: r2 =>
                if (col =? 0x3A)%N then
                  match value f (skip_ws r2) with
                  | Some r3 =>
                      match skip_ws r3 with
                      | c :: r4 =>
                          if (c =? 0x2C)%N then members f r4
                          else if (c =? 0x7D)%N then Some r4
                          else None
                      | [] => None
                      end
                  | None => None
                  end
                else None
            | [] => None
            end
        | None => None
        end
      else None
  | [] => None
  end.
Proof. reflexivity. Qed.

(** Each recognizer consumes at least one unit. *)
Lemma value_shorter (n : nat) :
  (forall s r, value n s = Some r -> (List.length r < List.length s)%nat)
  /\ (forall s r, elements n s = Some r -> (List.length r < List.length s)%nat)
  /\ (forall s r, members n s = Some r -> (List.length r < List.length s)%nat).
Proof.
  induction n as [|n [IHv [IHe IHm]]]; [repeat split; discriminate|].
  repeat split; intros s r H.
  - rewrite value_cases in H.
    destruct s as [|c s]; [discriminate|].
    pose proof (skip_ws_length s) as Hws.
    repeat break_in H; try discriminate;
      try (injection H as <-);
      try (apply IHm in H); try (apply IHe in H);
      try (apply (string_rest_shorter (List.length s) _ _ (le_n _)) in H);
      try (apply literal_shorter in H); try (apply number_shorter in H);
      simpl in *;
      try match goal with
          | E : skip_ws _ = _ :: _ |- _ => rewrite E in Hws; simpl in Hws
          end;
      try lia.
  - rewrite elements_cases in H.
    pose proof (skip_ws_length s) as Hws.
    repeat break_in H; try discriminate;
      try (injection H as <-); try (apply IHe in H);
      match goal with
      | E : value n _ = Some ?x, E' : skip_ws ?x = _ :: _ |- _ =>
          apply IHv in E; apply skip_ws_cons_length in E'
      end; simpl in *; lia.
  - rewrite members_cases in H.
    repeat break_in H; try discriminate;
      try (injection H as <-); try (apply IHm in H);
      repeat match goal with
        | E : value n (skip_ws ?y) = Some _ |- _ =>
            pose proof (skip_ws_length y); apply IHv in E
        | E : string_rest ?x = Some _ |- _ =>
            apply (string_rest_shorter (List.length x) _ _ (le_n _)) in E
        | E : skip_ws ?x = _ :: _ |- _ => apply skip_ws_cons_length in E
        end;
      simpl in *; lia.
Qed.


(** One more unit of fuel changes nothing once the fuel is twice the
    length of the text. *)
Lemma fuel_step (n : nat) :
  (forall s, (2 * List.length s + 1 <= n)%nat -> value (S n) s = value n s)
  /\ (forall s, (2 * List.length s + 2 <= n)%nat ->
                elements (S n) s = elements n s)
  /\ (forall s, (2 * List.length s + 2 <= n)%nat ->
                members (S n) s = members n s).
Proof.
  induction n as [|n [IHv [IHe IHm]]]; [repeat split; intros; lia|].
  repeat split; intros s Hn.
  - rewrite (value_cases (S n)), (value_cases n).
    destruct s as [|c s]; [reflexivity|].
    pose proof (skip_ws_length s) as Hws. simpl in Hn.
    destruct (c =? 0x7B)%N.
    { destruct (skip_ws s) as [|c1 r1] eqn:E; [reflexivity|].
      destruct (c1 =? 0x7D)%N; [reflexivity|]. rewrite <- E in *.
      apply IHm. lia. }
    destruct (c =? 0x5B)%N; [|reflexivity].
    destruct (skip_ws s) as [|c1 r1] eqn:E; [reflexivity|].
    destruct (c1 =? 0x5D)%N; [reflexivity|]. rewrite <- E in *.
    apply IHe. lia.
  - rewrite (elements_cases (S n)), (elements_cases n).
    pose proof (skip_ws_length s) as Hws.
    rewrite IHv by lia.
    destruct (value n (skip_ws s)) as [r|] eqn:Ev; [|reflexivity].
    apply (proj1 (value_shorter n)) in Ev.
    destruct (skip_ws r) as [|c r1] eqn:E; [reflexivity|].
    apply skip_ws_cons_length in E.
    destruct (c =? 0x2C)%N; [|reflexivity].
    apply IHe. lia.
  - rewrite (members_cases (S n)), (members_cases n).
    destruct (skip_ws s) as [|q r] eqn:E; [reflexivity|].
    apply skip_ws_cons_length in E.
    destruct (q =? 0x22)%N; [|reflexivity].
    destruct (string_rest r) as [r1|] eqn:Es; [|reflexivity].
    apply (string_rest_shorter (List.length r) _ _ (le_n _)) in Es.
    destruct (skip_ws r1) as [|col r2] eqn:E1; [reflexivity|].
    apply skip_ws_cons_length in E1.
    destruct (col =? 0x3A)%N; [|reflexivity].
    pose proof (skip_ws_length r2) as Hws.
    rewrite IHv by lia.
    destruct (value n (skip_ws r2)) as [r3|] eqn:Ev; [|reflexivity].
    apply (proj1 (value_shorter n)) in Ev.
    destruct (skip_ws r3) as [|c r4] eqn:E3; [reflexivity|].
    apply skip_ws_cons_length in E3.
    destruct (c =? 0x2C)%N; [|reflexivity].
    apply IHm. lia.
Qed.

(** The verdict of [valid] does not depend on the fuel: any larger fuel
    gives the same answer. *)
Lemma value_fuel_enough (s : jsstring) (m : nat) :
  (2 * List.length s + 2 <= m)%nat ->
  value m (skip_ws s) = value (2 * List.length s + 2) (skip_ws s).
Proof.
  intros H. induction H as [|m H IH]; [reflexivity|].
  rewrite <- IH. apply (proj1 (fuel_step m)).
  pose proof (skip_ws_length s). lia.
Qed.

End JsonFuel.

(* ================================================================== *)
(** ** The subprocess supervisor resolves exactly once                 *)
(* ================================================================== *)

Section SupervisorFacts.

Import GeminiCli.

Lemma deliver_app (st : Invocation) (a b : list ChildEvent) :
  deliver st (a ++ b) = deliver (deliver st a) b.
Proof. apply fold_left_app. Qed.

(** The guard of each callback: once [isResolved] is set the callback
    changes nothing. *)
Lemma onTimeout_guard (st : Invocation) :
  isResolved st = true -> onTimeout st = st.
Proof. intros H. unfold onTimeout. now rewrite H. Qed.

Lemma onClose_guard (c : option Z) (st : Invocation) :
  isResolved st = true -> onClose c st = st.
Proof. intros H. unfold onClose. now rewrite H. Qed.

Lemma onError_guard (e : GeminiError) (st : Invocation) :
  isResolved st = true -> onError e st = st.
Proof. intros H. unfold onError. now rewrite H. Qed.

(** Output chunks only grow the two accumulators. *)
Lemma data_only (pre : list ChildEvent) :
  forallb is_data pre = true ->
  forall st,
    deliver st pre =
    {| isResolved := isResolved st;
       stdout := stdout st ++ collected_stdout pre;
       stderr := stderr st ++ collected_stderr pre;
       timerArmed := timerArmed st; kills := kills st;
       resolutions := resolutions st |}.
Proof.
  induction pre as [|ev pre IH]; intros Hdata st.
  - simpl. rewrite !app_nil_r. now destruct st.
  - simpl in Hdata. apply andb_prop in Hdata as [Hev Hpre].
    change (deliver st (ev :: pre)) with (deliver (dispatch st ev) pre).
    rewrite (IH Hpre).
    destruct ev; try discriminate; simpl; rewrite <- !app_assoc;
      reflexivity.
Qed.

Lemma settled_late_event (st : Invocation) (late : ChildEvent) :
  is_settled st -> is_data late = false -> dispatch st late = st.
Proof.
  intros [Hres Htimer] Hlate.
  destruct late; try discriminate; simpl.
  - now apply onClose_guard.
  - now apply onError_guard.
  - now rewrite Htimer.
Qed.

Lemma settled_dispatch (st : Invocation) (ev : ChildEvent) :
  is_settled st ->
  is_settled (dispatch st ev)
  /\ resolutions (dispatch st ev) = resolutions st
  /\ kills (dispatch st ev) = kills st.
Proof.
  intros Hs.
  destruct (is_data ev) eqn:Hev.
  - destruct Hs as [Hres Htimer].
    destruct ev; try discriminate; simpl; repeat split; assumption.
  - rewrite (settled_late_event st ev Hs Hev). auto.
Qed.

Lemma settled_deliver (post : list ChildEvent) (st : Invocation) :
  is_settled st ->
  is_settled (deliver st post)
  /\ resolutions (deliver st post) = resolutions st
  /\ kills (deliver st post) = kills st.
Proof.
  revert st.
  induction post as [|ev post IH]; intros st Hs; [simpl; auto|].
  change (deliver st (ev :: post)) with (deliver (dispatch st ev) post).
  destruct (settled_dispatch st ev Hs) as [Hs' [Hr Hk]].
  destruct (IH _ Hs') as [Hs'' [Hr' Hk']].
  repeat split; try apply Hs''; congruence.
Qed.

(** The first of the three sources to fire resolves, with the outcome
    [first_outcome] names, and settles the invocation. *)
Lemma pending_first_event (st : Invocation) (ev : ChildEvent) :
  isResolved st = false -> timerArmed st = true -> is_data ev = false ->
  exists r,
    first_outcome ev st = Some r
    /\ is_settled (dispatch st ev)
    /\ resolutions (dispatch st ev) = resolutions st ++ [r]
    /\ kills (dispatch st ev)
       = kills st ++ match ev with TimerFired => [SIGKILL] | _ => [] end.
Proof.
  intros Hres Htimer Hev.
  destruct ev; try discriminate; simpl.
  - eexists. split; [reflexivity|]. unfold onClose, is_settled.
    rewrite Hres. simpl. rewrite app_nil_r. auto.
  - eexists. split; [reflexivity|]. unfold onError, is_settled.
    rewrite Hres. simpl. rewrite app_nil_r. auto.
  - eexists. split; [reflexivity|]. rewrite Htimer.
    unfold onTimeout, is_settled. simpl. rewrite Hres. simpl. auto.
Qed.

(** The run of an invocation whose first non-data event is [ev]. *)
Lemma race_decided (pre post : list ChildEvent) (ev : ChildEvent) :
  forallb is_data pre = true -> is_data ev = false ->
  exists r,
    first_outcome ev (deliver spawned pre) = Some r
    /\ is_settled (deliver spawned (pre ++ ev :: post))
    /\ resolutions (deliver spawned (pre ++ ev :: post)) = [r]
    /\ kills (deliver spawned (pre ++ ev :: post))
       = match ev with TimerFired => [SIGKILL] | _ => [] end.
Proof.
  intros Hpre Hev.
  rewrite deliver_app.
  change (deliver (deliver spawned pre) (ev :: post))
    with (deliver (dispatch (deliver spawned pre) ev) post).
  assert (Hst : isResolved (deliver spawned pre) = false
                /\ timerArmed (deliver spawned pre) = true
                /\ resolutions (deliver spawned pre) = []
                /\ kills (deliver spawned pre) = []).
  { rewrite (data_only pre Hpre). simpl. auto. }
  destruct Hst as [Hres [Htimer [Hnone Hk]]].
  destruct (pending_first_event _ _ Hres Htimer Hev)
    as [r [Hr [Hs [Hrs Hks]]]].
  destruct (settled_deliver post _ Hs) as [Hs' [Hrs' Hks']].
  exists r. rewrite Hrs', Hks', Hrs, Hks, Hnone, Hk. auto.
Qed.

(** However many events arrive, [resolve] is called at most once. *)
Lemma resolved_at_most_once (evs : list ChildEvent) :
  (List.length (resolutions (deliver spawned evs)) <= 1)%nat.
Proof.
  assert (Hsplit : forall l : list ChildEvent,
             forallb is_data l = true
             \/ exists pre ev post,
                 l = pre ++ ev :: post
                 /\ forallb is_data pre = true /\ is_data ev = false).
  { induction l as [|a l [IH | [pre [ev [post [-> [Hp He]]]]]]].
    - now left.
    - destruct (is_data a) eqn:Ha.
      + left. simpl. now rewrite Ha.
      + right. exists [], a, l. auto.
    - destruct (is_data a) eqn:Ha.
      + right. exists (a :: pre), ev, post. simpl. rewrite Ha. auto.
      + right. exists [], a, (pre ++ ev :: post). auto. }
  destruct (Hsplit evs) as [Hd | [pre [ev [post [-> [Hp He]]]]]].
  - rewrite (data_only evs Hd). simpl. lia.
  - destruct (race_decided pre post ev Hp He) as [r [_ [_ [Hr _]]]].
    rewrite Hr. simpl. lia.
Qed.

(** Past its validation, [executeGeminiCommand] in real mode is the
    supervisor run on the events. *)
Lemma execute_real_mode (toLowerCase : jsstring -> jsstring)
  (prompt : jsstring) (model : option jsstring) (evs : list ChildEvent) :
  trim prompt <> [] ->
  (Z.of_nat (List.length prompt) <= 10000)%Z ->
  executeGeminiCommand toLowerCase false prompt model evs =
  {| spawns := [(str "gemini", spawn_args prompt model)];
     signals := kills (deliver spawned evs);
     settlement := settled (deliver spawned evs) |}.
Proof.
  intros Htrim Hlen. unfold executeGeminiCommand.
  destruct prompt as [|c r]; [now elim Htrim|].
  destruct (trim (c :: r)) eqn:Ht; [now elim Htrim|].
  simpl List.length at 1. simpl Nat.eqb.
  destruct (10000 <? Z.of_nat (List.length (c :: r)))%Z eqn:Hl.
  - apply Z.ltb_lt in Hl. lia.
  - reflexivity.
Qed.

(** C1.  Whichever of process close, spawn error and timer expiry comes
    first after the output chunks [pre] decides the outcome: [resolve] is
    called exactly once, with the value that event computes from the
    output collected so far; the promise of [executeGeminiCommand] is
    fulfilled with that value whatever is delivered afterwards; and in
    every later state a late close, error or timer event leaves the
    invocation unchanged. *)
Theorem first_event_decides_outcome
  (toLowerCase : jsstring -> jsstring) (prompt : jsstring)
  (model : option jsstring) (pre post : list ChildEvent) (ev : ChildEvent) :
  trim prompt <> [] ->
  (Z.of_nat (List.length prompt) <= 10000)%Z ->
  forallb is_data pre = true ->
  is_data ev = false ->
  exists r,
    first_outcome ev (deliver spawned pre) = Some r
    /\ resolutions (deliver spawned (pre ++ ev :: post)) = [r]
    /\ settlement
         (executeGeminiCommand toLowerCase false prompt model
            (pre ++ ev :: post)) = Fulfilled r
    /\ forall late,
         is_data late = false ->
         dispatch (deliver spawned (pre ++ ev :: post)) late
         = deliver spawned (pre ++ ev :: post).
Proof.
  intros Htrim Hlen Hpre Hev.
  destruct (race_decided pre post ev Hpre Hev) as [r [Hr [Hs [Hrs _]]]].
  exists r. repeat split; trivial.
  - rewrite (execute_real_mode toLowerCase prompt model _ Htrim Hlen). simpl.
    unfold settled, promised. now rewrite Hrs.
  - intros late Hlate. now apply settled_late_event.
Qed.

Lemma first_event_decides_outcome_witness :
  exists r,
    first_outcome (Close (Some 0%Z))
      (deliver spawned [StdoutData [x68; x69]]) = Some r
    /\ resolutions
         (deliver spawned
            ([StdoutData [x68; x69]]
             ++ Close (Some 0%Z) :: [TimerFired; Close (Some 1%Z)])) = [r]
    /\ settlement
         (executeGeminiCommand (fun s => s) false (str "hi") None
            ([StdoutData [x68; x69]]
             ++ Close (Some 0%Z) :: [TimerFired; Close (Some 1%Z)]))
       = Fulfilled r
    /\ forall late,
         is_data late = false ->
         dispatch
           (deliver spawned
              ([StdoutData [x68; x69]]
               ++ Close (Some 0%Z) :: [TimerFired; Close (Some 1%Z)])) late
         = deliver spawned
             ([StdoutData [x68; x69]]
              ++ Close (Some 0%Z) :: [TimerFired; Close (Some 1%Z)]).
Proof.
  apply (first_event_decides_outcome (fun s => s) (str "hi") None
           [StdoutData [x68; x69]] [TimerFired; Close (Some 1%Z)]
           (Close (Some 0%Z))).
  - vm_compute. discriminate.
  - vm_compute. discriminate.
  - reflexivity.
  - reflexivity.
Defined.

End SupervisorFacts.

(* ================================================================== *)
(** ** The outcomes of the supervisor                                  *)
(* ================================================================== *)

Section SupervisorOutcomes.

Import GeminiCli.

Lemma collected_before_first_event (pre : list ChildEvent) :
  forallb is_data pre = true ->
  stdout (deliver spawned pre) = collected_stdout pre
  /\ stderr (deliver spawned pre) = collected_stderr pre.
Proof. intros H. rewrite (data_only pre H). simpl. auto. Qed.

Lemma promised_after_race (pre post : list ChildEvent) (ev : ChildEvent)
  (r : GeminiCliResult) :
  forallb is_data pre = true -> is_data ev = false ->
  first_outcome ev (deliver spawned pre) = Some r ->
  promised (deliver spawned (pre ++ ev :: post)) = Some r.
Proof.
  intros Hpre Hev Hr.
  destruct (race_decided pre post ev Hpre Hev) as [r' [Hr' [_ [Hrs _]]]].
  unfold promised. rewrite Hrs. simpl. congruence.
Qed.

(** C2.  When the process closes with code 0 before any other source
    fires, the output collected from the stdout chunks is trimmed: a
    non-empty trimmed output is reported as a success carrying it, an
    empty one (in particular output of white space only) as a failure
    with the empty-response message. *)
Theorem clean_exit_classified (pre post : list ChildEvent) :
  forallb is_data pre = true ->
  (trim (collected_stdout pre) <> [] ->
   promised (deliver spawned (pre ++ Close (Some 0%Z) :: post))
   = Some {| success := true; output := trim (collected_stdout pre);
             error := None; exitCode := None |})
  /\ (trim (collected_stdout pre) = [] ->
      promised (deliver spawned (pre ++ Close (Some 0%Z) :: post))
      = Some {| success := false; output := [];
                error := Some (str "Gemini CLI returned empty response");
                exitCode := Some 0%Z |})
  /\ (forallb isTrimmed (collected_stdout pre) = true ->
      trim (collected_stdout pre) = []).
Proof.
  intros Hpre.
  destruct (collected_before_first_event pre Hpre) as [Hout _].
  repeat split.
  - intros Hne.
    apply promised_after_race; trivial. simpl. rewrite Hout.
    unfold close_result. simpl.
    destruct (trim (collected_stdout pre)); [now elim Hne | reflexivity].
  - intros He.
    apply promised_after_race; trivial. simpl. rewrite Hout.
    unfold close_result. simpl. rewrite He. reflexivity.
  - apply trim_all_whitespace.
Qed.

Lemma clean_exit_classified_witness :
  (trim (collected_stdout [StdoutData [x20; x09]; StdoutData [x0a]]) <> [] ->
   promised (deliver spawned
               ([StdoutData [x20; x09]; StdoutData [x0a]]
                ++ Close (Some 0%Z) :: [TimerFired]))
   = Some {| success := true;
             output :=
               trim (collected_stdout
                       [StdoutData [x20; x09]; StdoutData [x0a]]);
             error := None; exitCode := None |})
  /\ (trim (collected_stdout [StdoutData [x20; x09]; StdoutData [x0a]]) = [] ->
      promised (deliver spawned
                  ([StdoutData [x20; x09]; StdoutData [x0a]]
                   ++ Close (Some 0%Z) :: [TimerFired]))
      = Some {| success := false; output := [];
                error := Some (str "Gemini CLI returned empty response");
                exitCode := Some 0%Z |})
  /\ (forallb isTrimmed
        (collected_stdout [StdoutData [x20; x09]; StdoutData [x0a]]) = true ->
      trim (collected_stdout [StdoutData [x20; x09]; StdoutData [x0a]]) = []).
Proof.
  apply (clean_exit_classified
           [StdoutData [x20; x09]; StdoutData [x0a]] [TimerFired]).
  reflexivity.
Defined.

(** C3.  When the timer expires before the process closes or fails, the
    child is sent SIGKILL (once) and the outcome is a failure with exit
    code 124 whose message names the bound, ten seconds. *)
Theorem timeout_kills_and_reports (pre post : list ChildEvent) :
  forallb is_data pre = true ->
  kills (deliver spawned (pre ++ TimerFired :: post)) = [SIGKILL]
  /\ promised (deliver spawned (pre ++ TimerFired :: post))
     = Some {| success := false; output := [];
               error := Some (str "Command timed out after 10 seconds");
               exitCode := Some 124%Z |}
  /\ str "Command timed out after 10 seconds"
     = str "Command timed out after "
       ++ Number_toString (COMMAND_TIMEOUT_MS / 1000) ++ str " seconds".
Proof.
  intros Hpre. repeat split.
  - destruct (race_decided pre post TimerFired Hpre eq_refl)
      as [r [_ [_ [_ Hk]]]].
    exact Hk.
  - apply promised_after_race; trivial.
Qed.

Lemma timeout_kills_and_reports_witness :
  kills (deliver spawned
           ([StdoutData [x68]] ++ TimerFired :: [Close None])) = [SIGKILL]
  /\ promised (deliver spawned
                 ([StdoutData [x68]] ++ TimerFired :: [Close None]))
     = Some {| success := false; output := [];
               error := Some (str "Command timed out after 10 seconds");
               exitCode := Some 124%Z |}
  /\ str "Command timed out after 10 seconds"
     = str "Command timed out after "
       ++ Number_toString (COMMAND_TIMEOUT_MS / 1000) ++ str " seconds".
Proof.
  apply (timeout_kills_and_reports [StdoutData [x68]] [Close None]).
  reflexivity.
Defined.

(** *** The shape of every result *)

Lemma close_result_well_formed (c : option Z) (out err : jsstring) :
  well_formed (close_result c out err).
Proof.
  unfold close_result, well_formed.
  destruct (is_zero c).
  - destruct (trim out) eqn:Ht; simpl; split; intros H; try discriminate.
    + eexists. split; [reflexivity | discriminate].
    + split; [discriminate | reflexivity].
  - simpl. split; intros H; [discriminate|].
    eexists. split; [reflexivity|].
    apply or_else_nonempty. discriminate.
Qed.

Lemma error_result_well_formed (e : GeminiError) :
  well_formed (error_result e).
Proof.
  unfold error_result, well_formed. simpl.
  split; intros H; [discriminate|].
  eexists. split; [reflexivity|].
  unfold error_message.
  destruct (has_code e "ENOENT"); [discriminate|].
  destruct (has_code e "ETIMEDOUT"); discriminate.
Qed.

Lemma timeout_result_well_formed : well_formed timeout_result.
Proof.
  unfold well_formed. simpl. split; intros H; [discriminate|].
  eexists. split; [reflexivity | discriminate].
Qed.

Lemma simulated_text_nonempty (toLowerCase : jsstring -> jsstring)
  (prompt : jsstring) (model : option jsstring) :
  simulated_text toLowerCase prompt model <> [].
Proof.
  unfold simulated_text.
  destruct (includes _ (str "2+2") || includes _ (str "2 + 2"));
    [discriminate|].
  destruct (includes _ (str "hello")); [discriminate|].
  destruct (includes _ (str "test")); discriminate.
Qed.

Lemma simulated_well_formed (toLowerCase : jsstring -> jsstring)
  (prompt : jsstring) (model : option jsstring) :
  well_formed (simulateGeminiResponse toLowerCase prompt model).
Proof.
  unfold well_formed. simpl. split; intros H; [|discriminate].
  split; [apply simulated_text_nonempty | reflexivity].
Qed.

Lemma dispatch_well_formed (st : Invocation) (ev : ChildEvent) :
  Forall well_formed (resolutions st) ->
  Forall well_formed (resolutions (dispatch st ev)).
Proof.
  intros H.
  destruct ev; simpl; trivial.
  - unfold onClose. destruct (isResolved st); simpl; trivial.
    apply Forall_app. split; trivial.
    constructor; [apply close_result_well_formed | constructor].
  - unfold onError. destruct (isResolved st); simpl; trivial.
    apply Forall_app. split; trivial.
    constructor; [apply error_result_well_formed | constructor].
  - destruct (timerArmed st); trivial.
    unfold onTimeout. simpl. destruct (isResolved st); simpl; trivial.
    apply Forall_app. split; trivial.
    constructor; [apply timeout_result_well_formed | constructor].
Qed.

Lemma deliver_well_formed (evs : list ChildEvent) (st : Invocation) :
  Forall well_formed (resolutions st) ->
  Forall well_formed (resolutions (deliver st evs)).
Proof.
  revert st. induction evs as [|ev evs IH]; intros st H; [exact H|].
  apply (IH (dispatch st ev)). now apply dispatch_well_formed.
Qed.

(** C9.  Whatever the mode, the prompt, the model and the events, a
    result with which the promise of [executeGeminiCommand] is fulfilled
    has the expected shape: a success has a non-empty output and no error,
    a failure has a non-empty error. *)
Theorem every_result_well_formed (toLowerCase : jsstring -> jsstring)
  (TEST_MODE : bool) (prompt : jsstring) (model : option jsstring)
  (events : list ChildEvent) (r : GeminiCliResult) :
  settlement (executeGeminiCommand toLowerCase TEST_MODE prompt model events)
  = Fulfilled r ->
  well_formed r.
Proof.
  unfold executeGeminiCommand.
  destruct TEST_MODE.
  - simpl. intros H. injection H as <-. apply simulated_well_formed.
  - destruct prompt as [|c p]; [discriminate|].
    destruct (List.length (trim (c :: p)) =? 0)%nat; [discriminate|].
    destruct (10000 <? Z.of_nat (List.length (c :: p)))%Z; [discriminate|].
    simpl. unfold settled, promised.
    pose proof (deliver_well_formed events spawned (Forall_nil _)) as Hall.
    destruct (resolutions (deliver spawned events)) as [|r0 rs];
      [discriminate|].
    simpl. intros H. injection H as <-.
    now inversion Hall.
Qed.

Lemma every_result_well_formed_witness :
  well_formed
    {| success := false; output := str "partial";
       error := Some (str "boom"); exitCode := Some 2%Z |}.
Proof.
  apply (every_result_well_formed (fun s => s) false (str "hi") None
           [StdoutData [x70; x61; x72; x74; x69; x61; x6c; x20];
            StderrData [x62; x6f; x6f; x6d; x0a];
            Close (Some 2%Z); TimerFired]).
  reflexivity.
Defined.

(** C10.  In simulated mode [executeGeminiCommand] validates nothing: for
    every prompt it spawns no process and fulfils its promise with
    [success = true] and a non-empty output.  In real mode the empty
    prompt, a prompt of white space only and a prompt of more than 10000
    units are each rejected with their validation error, and nothing is
    spawned. *)
Theorem simulated_mode_skips_validation (toLowerCase : jsstring -> jsstring)
  (prompt : jsstring) (model : option jsstring) (events : list ChildEvent) :
  (exists r,
      executeGeminiCommand toLowerCase true prompt model events
      = {| spawns := []; signals := []; settlement := Fulfilled r |}
      /\ success r = true /\ output r <> [])
  /\ (prompt = [] ->
      executeGeminiCommand toLowerCase false prompt model events
      = threw "Prompt is required and must be a string")
  /\ (prompt <> [] -> trim prompt = [] ->
      executeGeminiCommand toLowerCase false prompt model events
      = threw "Prompt cannot be empty")
  /\ (trim prompt <> [] -> (10000 < Z.of_nat (List.length prompt))%Z ->
      executeGeminiCommand toLowerCase false prompt model events
      = threw "Prompt is too long (max 10000 characters)").
Proof.
  repeat split.
  - exists (simulateGeminiResponse toLowerCase prompt model).
    repeat split. apply simulated_text_nonempty.
  - intros ->. reflexivity.
  - intros Hne Ht. unfold executeGeminiCommand.
    destruct prompt; [now elim Hne|]. now rewrite Ht.
  - intros Ht Hlen. unfold executeGeminiCommand.
    destruct prompt as [|c p]; [now elim Ht|].
    destruct (trim (c :: p)); [now elim Ht|].
    simpl List.length at 1. simpl Nat.eqb.
    apply Z.ltb_lt in Hlen. now rewrite Hlen.
Qed.

End SupervisorOutcomes.

Lemma simulated_mode_skips_validation_witness :
  (exists r,
      GeminiCli.executeGeminiCommand (fun s => s) true (str "  ") None []
      = {| GeminiCli.spawns := []; GeminiCli.signals := [];
           GeminiCli.settlement := GeminiCli.Fulfilled r |}
      /\ GeminiCli.success r = true /\ GeminiCli.output r <> [])
  /\ GeminiCli.executeGeminiCommand (fun s => s) false [] None []
     = GeminiCli.threw "Prompt is required and must be a string"
  /\ GeminiCli.executeGeminiCommand (fun s => s) false (str "  ") None []
     = GeminiCli.threw "Prompt cannot be empty"
  /\ GeminiCli.executeGeminiCommand (fun s => s) false
       (repeat 0x61%N (N.to_nat 10001)) None []
     = GeminiCli.threw "Prompt is too long (max 10000 characters)".
Proof.
  destruct (simulated_mode_skips_validation (fun s => s) (str "  ") None [])
    as [H1 [_ [H3 _]]].
  destruct (simulated_mode_skips_validation (fun s => s) [] None [])
    as [_ [H2 _]].
  destruct (simulated_mode_skips_validation (fun s => s)
              (repeat 0x61%N (N.to_nat 10001)) None [])
    as [_ [_ [_ H4]]].
  split; [exact H1|].
  split; [exact (H2 eq_refl)|].
  split; [apply H3; [discriminate | reflexivity]|].
  apply H4; [vm_compute; discriminate | vm_compute; reflexivity].
Defined.

(* ================================================================== *)
(** ** [sanitizePrompt]                                                *)
(* ================================================================== *)

Section Sanitization.

Import GeminiCli.

Lemma remove_all_spec (cls : N -> bool) (s : jsstring) (c : N) :
  In c (remove_all cls s) <-> In c s /\ cls c = false.
Proof.
  unfold remove_all. rewrite filter_In.
  destruct (cls c); simpl; intuition congruence.
Qed.

(** The pass that removes U+0000 is subsumed by the class, which starts
    at [\x00]. *)
Lemma null_pass_subsumed (s : jsstring) :
  remove_all in_control_class (remove_all is_null_byte s)
  = remove_all in_control_class s.
Proof.
  induction s as [|c s IH]; [reflexivity|].
  unfold remove_all in *. simpl.
  destruct (is_null_byte c) eqn:Hn; simpl.
  - apply N.eqb_eq in Hn. subst c. simpl. exact IH.
  - destruct (in_control_class c); simpl; now rewrite IH.
Qed.

(** C6, as the code has it.  [sanitizePrompt] removes every unit of the
    class U+0000 to U+0008, U+000B, U+000C, U+000E to U+001F and U+007F
    (so every null byte) and then trims: the result is the trimmed rest,
    holds no unit of that class and only units of the input, keeps every
    unit of the input that is neither in the class nor white space, and
    has no leading or trailing white space. *)
Theorem sanitizePrompt_removes_class (prompt : jsstring) :
  sanitizePrompt prompt = trim (remove_all in_control_class prompt)
  /\ (forall c, In c (sanitizePrompt prompt) ->
                in_control_class c = false /\ c <> 0%N /\ In c prompt)
  /\ (forall c, In c prompt -> in_control_class c = false ->
                isTrimmed c = false -> In c (sanitizePrompt prompt))
  /\ no_outer_whitespace (sanitizePrompt prompt).
Proof.
  assert (Heq : sanitizePrompt prompt
                = trim (remove_all in_control_class prompt)).
  { unfold sanitizePrompt. now rewrite null_pass_subsumed. }
  split; [exact Heq|]. split; [|split].
  - intros c Hc. rewrite Heq in Hc.
    apply trim_incl in Hc. apply remove_all_spec in Hc as [Hin Hcls].
    repeat split; trivial.
    intros ->. discriminate.
  - intros c Hin Hcls Hws. rewrite Heq.
    apply trim_keeps; [|exact Hws].
    apply remove_all_spec. now split.
  - unfold no_outer_whitespace, sanitizePrompt. split.
    + intros c r. apply trim_head.
    + intros r c. apply trim_last.
Qed.

(** A tab inside the text is kept although it is a C0 control, and so is
    U+0085 although it is a C1 control: the result is not free of C0 and
    C1 controls. *)
Lemma sanitizePrompt_keeps_tab_and_C1 :
  sanitizePrompt [0x61; 0x09; 0x62]%N = [0x61; 0x09; 0x62]%N
  /\ is_C0 0x09%N = true
  /\ free_of_controls (sanitizePrompt [0x61; 0x09; 0x62]%N) = false
  /\ sanitizePrompt [0x61; 0x85; 0x62]%N = [0x61; 0x85; 0x62]%N
  /\ is_C1 0x85%N = true
  /\ free_of_controls (sanitizePrompt [0x61; 0x85; 0x62]%N) = false.
Proof. repeat split. Qed.

Lemma sanitizePrompt_removes_class_witness :
  sanitizePrompt [0x20; 0x61; 0x00; 0x85; 0x01; 0x62; 0x20]%N
  = trim (remove_all in_control_class
            [0x20; 0x61; 0x00; 0x85; 0x01; 0x62; 0x20]%N)
  /\ (in_control_class 0x61%N = false /\ 0x61%N <> 0%N
      /\ In 0x61%N [0x20; 0x61; 0x00; 0x85; 0x01; 0x62; 0x20]%N)
  /\ In 0x85%N (sanitizePrompt [0x20; 0x61; 0x00; 0x85; 0x01; 0x62; 0x20]%N).
Proof.
  destruct (sanitizePrompt_removes_class
              [0x20; 0x61; 0x00; 0x85; 0x01; 0x62; 0x20]%N)
    as [H1 [H2 [H3 _]]].
  split; [exact H1|]. split.
  - apply H2. left. reflexivity.
  - apply H3; [simpl; tauto | reflexivity | reflexivity].
Defined.

End Sanitization.

(* ================================================================== *)
(** ** The excerpt of a malformed line                                 *)
(* ================================================================== *)

Section Excerpt.

Import GeminiCli Server.

Lemma emit_forwards_only (ls : list Listener) (validData : Buffer) :
  forall i o,
    In o (fst (emit i ls validData)) -> exists j, o = Forwarded j validData.
Proof.
  induction ls as [|l ls IH]; intros i o; simpl; [tauto|].
  destruct (l validData).
  - specialize (IH (S i) o).
    destruct (emit (S i) ls validData) as [out c]. simpl in *.
    intros [<- | H]; eauto.
  - simpl. intros [<- | []]. eauto.
Qed.

(** Every response the loop body writes is the parse-error response of
    the trimmed line. *)
Lemma written_by_process_line (JSON_parse : jsstring -> Completion)
  (listeners : list Listener) (line : jsstring) (r : ErrorResponse) :
  In (Written r) (process_line JSON_parse listeners line) ->
  exists e, r = parse_error_response e (trim line).
Proof.
  unfold process_line.
  destruct (trim line) as [|c t] eqn:Ht; [intros []|].
  assert (Hcatch : forall e,
             In (Written r) (on_parse_error e (c :: t)) ->
             exists e', r = parse_error_response e' (c :: t)).
  { intros e [H | [H | []]]; [discriminate|].
    injection H as <-. eauto. }
  destruct (JSON_parse (c :: t)) as [|e]; [|apply Hcatch].
  pose proof (emit_forwards_only listeners (Buffer_from ((c :: t) ++ [LF])) 0)
    as Hfw.
  destruct (emit 0 listeners (Buffer_from ((c :: t) ++ [LF]))) as [out k].
  simpl in Hfw.
  destruct k as [|e].
  - intros H. destruct (Hfw _ H) as [j Hj]. discriminate.
  - intros H. apply in_app_or in H as [H | H]; [|now apply (Hcatch e)].
    destruct (Hfw _ H) as [j Hj]. discriminate.
Qed.

Lemma excerpt_length (t : jsstring) :
  (List.length (excerpt t) <= 103)%nat
  /\ (List.length (substring0 EXCERPT_CAP t) <= 100)%nat.
Proof.
  unfold excerpt, substring0, EXCERPT_CAP.
  rewrite length_app.
  pose proof (firstn_le_length 100 t) as H1.
  assert (H2 : (List.length (firstn 100 t) <= 100)%nat).
  { rewrite length_firstn. lia. }
  destruct (100 <? List.length t)%nat.
  - change (List.length (str "...")) with 3%nat. lia.
  - change (List.length (@nil N)) with 0%nat. lia.
Qed.

Lemma excerpt_short (t : jsstring) :
  (List.length t <= 100)%nat -> excerpt t = t.
Proof.
  intros H. unfold excerpt, substring0, EXCERPT_CAP.
  rewrite firstn_all2 by exact H.
  destruct (100 <? List.length t)%nat eqn:Hlt.
  - apply Nat.ltb_lt in Hlt. lia.
  - apply app_nil_r.
Qed.

(** C7, as the code has it.  The [received] field of every error response
    the framer writes for a line is the first 100 units of the trimmed
    line, followed by the three-unit marker when the trimmed line is
    longer than 100: at most 100 units of the line, at most 103 units in
    all, and the trimmed line itself when it has at most 100 units. *)
Theorem received_excerpt_bounded (JSON_parse : jsstring -> Completion)
  (listeners : list Listener) (line : jsstring) (r : ErrorResponse) :
  In (Written r) (process_line JSON_parse listeners line) ->
  exists d,
    data r = Some d
    /\ received d
       = firstn 100 (trim line)
         ++ (if (100 <? List.length (trim line))%nat then str "..." else [])
    /\ (List.length (firstn 100 (trim line)) <= 100)%nat
    /\ (List.length (received d) <= 103)%nat
    /\ ((List.length (trim line) <= 100)%nat -> received d = trim line).
Proof.
  intros H.
  destruct (written_by_process_line _ _ _ _ H) as [e ->].
  eexists. split; [reflexivity|]. simpl.
  destruct (excerpt_length (trim line)) as [H103 H100].
  repeat split; trivial.
  apply excerpt_short.
Qed.

Lemma received_excerpt_bounded_witness :
  exists d,
    data (parse_error_response (ErrorObject Json.SyntaxError_message)
            (str "oops")) = Some d
    /\ received d
       = firstn 100 (trim (str " oops"))
         ++ (if (100 <? List.length (trim (str " oops")))%nat
             then str "..." else [])
    /\ (List.length (firstn 100 (trim (str " oops"))) <= 100)%nat
    /\ (List.length (received d) <= 103)%nat
    /\ ((List.length (trim (str " oops")) <= 100)%nat ->
        received d = trim (str " oops")).
Proof.
  apply (received_excerpt_bounded Json.parse [returning] (str " oops")).
  right. left. reflexivity.
Defined.

(** A malformed line of 101 units: the [received] field has 103 units,
    three more than the cap. *)
Lemma received_exceeds_cap :
  map (fun r => match data r with
                | Some d => List.length (received d)
                | None => 0%nat
                end)
    (responses
       (snd (onData Json.parse [returning] []
               (complete_lines [repeat x78 101]))))
  = [103%nat].
Proof. vm_compute. reflexivity. Qed.

End Excerpt.

(* ================================================================== *)
(** ** The tool-call handler                                           *)
(* ================================================================== *)

Section Orchestrator.

Import GeminiCli Server.

Variable toLowerCase : jsstring -> jsstring.
Variable TEST_MODE : bool.

Lemma unit_eqb_refl (a : jsstring) : unit_eqb a a = true.
Proof. unfold unit_eqb. destruct (list_eq_dec N.eq_dec a a); congruence. Qed.

(** A request the schema rejects ends in an invalid-params error before
    anything is logged or executed. *)
Lemma schema_failure (args : option Arguments) (issues : list ZodIssue)
  (events : list ChildEvent) :
  GeminiQuerySchema_parse args = inl issues ->
  callTool toLowerCase TEST_MODE (str "gemini_query") args events
  = {| logs := []; execution := None;
       result :=
         Threw {| mcp_code := InvalidParams;
                  mcp_message :=
                    str "Invalid parameters: " ++ errorMessages issues |} |}.
Proof.
  intros H. unfold callTool. rewrite unit_eqb_refl. simpl negb. cbv iota.
  now rewrite H.
Qed.

Lemma too_long_fails_schema (p : jsstring) (m : JSValue) :
  (10000 < Z.of_nat (List.length p))%Z ->
  GeminiQuerySchema_parse (Some {| arg_prompt := JString p; arg_model := m |})
  = inl ({| path := [str "prompt"]; issue_message := str "Prompt too long" |}
         :: check_model m).
Proof.
  intros H. unfold GeminiQuerySchema_parse, check_prompt.
  cbn [arg_prompt arg_model]. cbv iota.
  assert (H1 : (Z.of_nat (List.length p) <? 1)%Z = false)
    by (apply Z.ltb_ge; lia).
  apply Z.ltb_lt in H. rewrite H1, H. reflexivity.
Qed.

(** A failure that comes with an execution is an internal error. *)
Lemma execution_failure_internal (name : jsstring) (args : option Arguments)
  (events : list ChildEvent) (run : Execution) (e : McpError) :
  execution (callTool toLowerCase TEST_MODE name args events) = Some run ->
  result (callTool toLowerCase TEST_MODE name args events) = Threw e ->
  mcp_code e = InternalError.
Proof.
  unfold callTool.
  destruct (negb (unit_eqb name (str "gemini_query"))); [discriminate|].
  destruct (GeminiQuerySchema_parse args) as [issues | v]; [discriminate|].
  destruct (settlement _) as [reason | r |]; simpl.
  - intros _ H. now injection H as <-.
  - intros _. destruct (success r); [discriminate|].
    intros H. now injection H as <-.
  - discriminate.
Qed.

(** A prompt of white space only passes the schema, is emptied by
    [sanitizePrompt] and is then refused by [executeGeminiCommand] itself:
    in real mode the handler reports it as an internal error, without a
    spawn. *)
Lemma blank_prompt_is_internal_error (events : list ChildEvent) :
  callTool toLowerCase false (str "gemini_query")
    (Some {| arg_prompt := JString (str "   "); arg_model := JUndefined |})
    events
  = {| logs := [str "[GeminiMCP] Executing query: ...";
                str "[GeminiMCP] Error: Prompt is required and must be a string"];
       execution := Some (threw "Prompt is required and must be a string");
       result :=
         Threw {| mcp_code := InternalError;
                  mcp_message :=
                    str "Failed to execute Gemini query: Prompt is required and must be a string" |} |}.
Proof. reflexivity. Qed.

(** C8.  A tool call whose prompt has more than 10000 units is rejected
    by the schema with [InvalidParams] and the message of the schema;
    [executeGeminiCommand] is not called, so no process is spawned.  The
    same holds for a missing argument object, a missing prompt and the
    empty prompt.  A failure reported after an execution carries
    [InternalError], whose number differs from that of [InvalidParams]. *)
Theorem too_long_prompt_is_invalid_params (p : jsstring) (m : JSValue)
  (events : list ChildEvent) :
  (10000 < Z.of_nat (List.length p))%Z ->
  callTool toLowerCase TEST_MODE (str "gemini_query")
    (Some {| arg_prompt := JString p; arg_model := m |}) events
  = {| logs := []; execution := None;
       result :=
         Threw {| mcp_code := InvalidParams;
                  mcp_message :=
                    str "Invalid parameters: "
                    ++ errorMessages
                         ({| path := [str "prompt"];
                             issue_message := str "Prompt too long" |}
                          :: check_model m) |} |}
  /\ (forall args,
         args = None
         \/ args = Some {| arg_prompt := JUndefined; arg_model := m |}
         \/ args = Some {| arg_prompt := JString []; arg_model := m |} ->
         exists msg,
           callTool toLowerCase TEST_MODE (str "gemini_query") args events
           = {| logs := []; execution := None;
                result := Threw {| mcp_code := InvalidParams;
                                   mcp_message := msg |} |})
  /\ (forall name args run e,
         execution (callTool toLowerCase TEST_MODE name args events)
         = Some run ->
         result (callTool toLowerCase TEST_MODE name args events) = Threw e ->
         mcp_code e = InternalError)
  /\ ErrorCode_value InvalidParams <> ErrorCode_value InternalError.
Proof.
  intros Hlen. repeat split.
  - apply schema_failure. now apply too_long_fails_schema.
  - intros args [-> | [-> | ->]]; eexists; apply schema_failure;
      reflexivity.
  - intros name args run e. apply execution_failure_internal.
  - discriminate.
Qed.

End Orchestrator.

Lemma too_long_prompt_is_invalid_params_witness :
  Server.callTool (fun s => s) false (str "gemini_query")
    (Some {| Server.arg_prompt :=
               Server.JString (repeat 0x61%N (N.to_nat 10001));
             Server.arg_model := Server.JUndefined |}) []
  = {| Server.logs := []; Server.execution := None;
       Server.result :=
         Server.Threw
           {| Server.mcp_code := Server.InvalidParams;
              Server.mcp_message :=
                str "Invalid parameters: prompt: Prompt too long" |} |}.
Proof.
  destruct (too_long_prompt_is_invalid_params (fun s => s) false
              (repeat 0x61%N (N.to_nat 10001)) Server.JUndefined [])
    as [H _].
  - vm_compute. reflexivity.
  - exact H.
Defined.

(* ================================================================== *)
(** ** Decoding a chunk: line feeds and character boundaries           *)
(* ================================================================== *)

Section Decoding.

Local Open Scope N_scope.

Lemma low_bits_of_continuation (b : N) :
  0x90 <= b -> b <= 0xBF -> N.shiftr (N.land b 0x3F) 4 <> 0.
Proof.
  intros Hlo Hhi.
  change 0x3F with (N.ones 6). rewrite N.land_ones, N.shiftr_div_pow2.
  change (2 ^ 6) with 64. change (2 ^ 4) with 16.
  zify. Z.to_euclidean_division_equations. lia.
Qed.

Lemma continuation_above_15 (cp b : N) :
  1 <= cp \/ (0x90 <= b /\ b <= 0xBF) ->
  16 <= N.lor (N.shiftl cp 6) (N.land b 0x3F).
Proof.
  intros H.
  assert (Hs : N.shiftr (N.lor (N.shiftl cp 6) (N.land b 0x3F)) 4 <> 0).
  { rewrite N.shiftr_lor, N.shiftr_shiftl_l by lia.
    intros H0. apply N.lor_eq_0_iff in H0 as [H1 H2].
    destruct H as [H | [Hlo Hhi]].
    - apply N.shiftl_eq_0_iff in H1. lia.
    - now apply (low_bits_of_continuation b). }
  rewrite N.shiftr_div_pow2 in Hs. change (2 ^ 4) with 16 in Hs.
  destruct (N.lt_ge_cases (N.lor (N.shiftl cp 6) (N.land b 0x3F)) 16)
    as [Hlt | Hge]; [|exact Hge].
  elim Hs. now apply N.div_small.
Qed.

Lemma no_LF_app (a b : jsstring) :
  no_LF (a ++ b) = no_LF a && no_LF b.
Proof. apply forallb_app. Qed.

Lemma no_LF_In (s : jsstring) : no_LF s = true <-> ~ In LF s.
Proof.
  unfold no_LF. rewrite forallb_forall. split.
  - intros H Hin. specialize (H _ Hin). now rewrite N.eqb_refl in H.
  - intros H c Hc. destruct (N.eqb_spec c LF); [now subst | reflexivity].
Qed.

Lemma utf16_no_LF (cp : N) : 16 <= cp -> no_LF (utf16_of_code_point cp) = true.
Proof.
  intros H. unfold utf16_of_code_point, no_LF, LF.
  destruct (cp <=? 0xFFFF) eqn:Hcp; cbn [forallb]; rewrite ?andb_true_r.
  - apply negb_true_iff, N.eqb_neq. lia.
  - rewrite andb_true_iff. split; apply negb_true_iff, N.eqb_neq; lia.
Qed.

Lemma utf8_lead_ok (b : byte) : utf8_ok (fst (utf8_lead (Byte.to_N b))) = true.
Proof. destruct b; reflexivity. Qed.

Lemma utf8_lead_no_LF (b : byte) :
  b <> x0a -> no_LF (snd (utf8_lead (Byte.to_N b))) = true.
Proof. destruct b; intros H; try reflexivity. now elim H. Qed.

(** One step keeps the decoder in a state of [utf8_ok]; fed a byte other
    than 0x0A it emits no line feed. *)
Lemma utf8_step_ok (st : Utf8State) (b : byte) :
  utf8_ok st = true ->
  utf8_ok (fst (utf8_step st (Byte.to_N b))) = true
  /\ (b <> x0a -> no_LF (snd (utf8_step st (Byte.to_N b))) = true).
Proof.
  destruct st as [|cp k lo hi]; intros Hok.
  - split; [apply utf8_lead_ok | apply utf8_lead_no_LF].
  - simpl in Hok. apply andb_prop in Hok as [Hb Hcp].
    apply andb_prop in Hb as [Hlo Hhi].
    apply N.leb_le in Hlo, Hhi.
    unfold utf8_step.
    destruct ((lo <=? Byte.to_N b) && (Byte.to_N b <=? hi)) eqn:Hr.
    + apply andb_prop in Hr as [H1 H2]. apply N.leb_le in H1, H2.
      assert (H16 : 16 <= N.lor (N.shiftl cp 6) (N.land (Byte.to_N b) 0x3F)).
      { apply continuation_above_15.
        apply orb_prop in Hcp as [Hc | Hc]; apply N.leb_le in Hc;
          [left; exact Hc | right; lia]. }
      destruct k as [|[|k']]; simpl fst; simpl snd.
      * split; [reflexivity | intros _; now apply utf16_no_LF].
      * split; [reflexivity | intros _; now apply utf16_no_LF].
      * split; [|reflexivity].
        unfold utf8_ok. change (0x80 <=? 0x80) with true.
        change (0xBF <=? 0xBF) with true. simpl andb.
        apply orb_true_iff. left. apply N.leb_le. lia.
    + pose proof (utf8_lead_ok b) as Hl. pose proof (utf8_lead_no_LF b) as Hn.
      destruct (utf8_lead (Byte.to_N b)) as [st' out]. simpl in *.
      split; [exact Hl|]. intros Hb. change (no_LF (REPLACEMENT :: out))
        with (negb (REPLACEMENT =? LF) && no_LF out).
      now rewrite (Hn Hb).
Qed.

(** The byte 0x0A always decodes to a line feed of its own: it ends what
    precedes it and starts afresh what follows. *)
Lemma decode_across_line_feed (l rest : Buffer) :
  forall st,
    utf8_ok st = true ->
    utf8_decode st (l ++ x0a :: rest)
    = utf8_decode st l ++ LF :: utf8_decode Idle rest.
Proof.
  induction l as [|b l IH]; intros st Hok.
  - destruct st as [|cp k lo hi]; [reflexivity|].
    simpl in Hok. apply andb_prop in Hok as [Hb _].
    apply andb_prop in Hb as [Hlo _]. apply N.leb_le in Hlo.
    simpl app. unfold utf8_decode at 1. fold utf8_decode.
    unfold utf8_step. change (Byte.to_N x0a) with 10.
    assert (Hout : (lo <=? 10) = false) by (apply N.leb_gt; lia).
    rewrite Hout. reflexivity.
  - simpl.
    destruct (utf8_step_ok st b Hok) as [Hok' _].
    destruct (utf8_step st (Byte.to_N b)) as [st' out]. simpl in Hok'.
    rewrite (IH st' Hok'). now rewrite app_assoc.
Qed.

Lemma decode_no_LF (l : Buffer) :
  ~ In x0a l ->
  forall st, utf8_ok st = true -> no_LF (utf8_decode st l) = true.
Proof.
  induction l as [|b l IH]; intros Hnot st Hok.
  - destruct st; reflexivity.
  - simpl.
    destruct (utf8_step_ok st b Hok) as [Hok' Hout].
    destruct (utf8_step st (Byte.to_N b)) as [st' out]. simpl in *.
    rewrite no_LF_app. apply andb_true_iff. split.
    + apply Hout. intros ->. apply Hnot. now left.
    + apply IH; [|exact Hok']. intros Hin. apply Hnot. now right.
Qed.

(** A chunk cut at a character boundary decodes piecewise. *)
Lemma decode_at_boundary (c1 c2 : Buffer) :
  forall st,
    utf8_final st c1 = Idle ->
    utf8_decode st (c1 ++ c2) = utf8_decode st c1 ++ utf8_decode Idle c2.
Proof.
  induction c1 as [|b c1 IH]; intros st Hfin.
  - simpl in Hfin. subst st. reflexivity.
  - simpl in *.
    destruct (utf8_step st (Byte.to_N b)) as [st' out]. simpl in Hfin.
    rewrite (IH st' Hfin). now rewrite app_assoc.
Qed.

Lemma toString_complete_lines (lines : list Buffer) :
  Buffer_toString (Server.complete_lines lines)
  = flat_map (fun t => t ++ [LF]) (map Buffer_toString lines).
Proof.
  unfold Buffer_toString.
  induction lines as [|l lines IH]; [reflexivity|].
  simpl. rewrite <- app_assoc. simpl.
  rewrite decode_across_line_feed by reflexivity.
  rewrite <- app_assoc. simpl. now rewrite IH.
Qed.

End Decoding.

(* ================================================================== *)
(** ** The line framer                                                 *)
(* ================================================================== *)

Section FramerFacts.

Import GeminiCli Server.

Variable JSON_parse : jsstring -> Completion.
Variable listeners : list Listener.

Lemma split_at_LF (l rest : jsstring) :
  no_LF l = true -> split LF (l ++ LF :: rest) = l :: split LF rest.
Proof.
  induction l as [|c l IH]; intros H.
  - reflexivity.
  - change (no_LF (c :: l)) with (negb (c =? LF)%N && no_LF l) in H.
    apply andb_prop in H as [Hc Hl]. apply negb_true_iff in Hc.
    cbn [app split]. rewrite Hc, (IH Hl). reflexivity.
Qed.

Lemma split_without_LF (l : jsstring) : no_LF l = true -> split LF l = [l].
Proof.
  induction l as [|c l IH]; intros H; [reflexivity|].
  change (no_LF (c :: l)) with (negb (c =? LF)%N && no_LF l) in H.
  apply andb_prop in H as [Hc Hl]. apply negb_true_iff in Hc.
  cbn [split]. rewrite Hc, (IH Hl). reflexivity.
Qed.

(** Complete lines followed by an unterminated tail split into exactly
    those lines and that tail. *)
Lemma split_lines (ls : list jsstring) (tail : jsstring) :
  Forall (fun l => no_LF l = true) ls -> no_LF tail = true ->
  split LF (flat_map (fun l => l ++ [LF]) ls ++ tail) = ls ++ [tail].
Proof.
  intros Hls Htail. induction Hls as [|l ls Hl _ IH].
  - simpl. now apply split_without_LF.
  - simpl. rewrite <- !app_assoc. simpl.
    rewrite (split_at_LF _ _ Hl). now rewrite IH.
Qed.

Lemma pop_last {A : Type} (a : list A) (x : A) : pop (a ++ [x]) = (Some x, a).
Proof. unfold pop. rewrite rev_app_distr. simpl. now rewrite rev_involutive. Qed.

Lemma kept_tail_some (tail : jsstring) : kept_tail (Some tail) = tail.
Proof. now destruct tail. Qed.

(** The handler on a text made of complete lines and a tail: the tail is
    kept, the lines are processed in order. *)
Lemma onData_lines (buffer : jsstring) (chunk : Buffer)
  (ls : list jsstring) (tail : jsstring) :
  buffer ++ Buffer_toString chunk = flat_map (fun l => l ++ [LF]) ls ++ tail ->
  Forall (fun l => no_LF l = true) ls -> no_LF tail = true ->
  onData JSON_parse listeners buffer chunk
  = (tail, flat_map (process_line JSON_parse listeners) ls).
Proof.
  intros Htext Hls Htail. unfold onData.
  rewrite Htext, (split_lines _ _ Hls Htail), pop_last.
  now rewrite kept_tail_some.
Qed.

(** A chunk without a line feed is only buffered. *)
Lemma onData_buffers (buffer : jsstring) (chunk : Buffer) :
  no_LF (buffer ++ Buffer_toString chunk) = true ->
  onData JSON_parse listeners buffer chunk
  = (buffer ++ Buffer_toString chunk, []).
Proof.
  intros H.
  apply (onData_lines buffer chunk [] (buffer ++ Buffer_toString chunk));
    [reflexivity | constructor | exact H].
Qed.

(** Splitting a chunk at a character boundary, before the first line feed,
    changes neither what the framer emits nor what it keeps. *)
Lemma split_at_character_boundary (buffer : jsstring) (c1 c2 : Buffer) :
  utf8_final Idle c1 = Idle ->
  no_LF (buffer ++ Buffer_toString c1) = true ->
  feed JSON_parse listeners buffer [c1; c2]
  = feed JSON_parse listeners buffer [c1 ++ c2].
Proof.
  intros Hidle Hno.
  assert (Heq : onData JSON_parse listeners
                  (buffer ++ Buffer_toString c1) c2
                = onData JSON_parse listeners buffer (c1 ++ c2)).
  { unfold onData, Buffer_toString.
    now rewrite (decode_at_boundary c1 c2 Idle Hidle), app_assoc. }
  cbn [feed]. rewrite (onData_buffers _ _ Hno), Heq.
  destruct (onData JSON_parse listeners buffer (c1 ++ c2)) as [b o].
  reflexivity.
Qed.

(** With listeners that return normally, a valid line reaches each of
    them once, in their order. *)
Lemma emit_returning (ls : list Listener) (validData : Buffer) :
  Forall (fun l : Listener => forall d, l d = Returns) ls ->
  forall i,
    emit i ls validData
    = (map (fun j => Forwarded j validData) (seq i (List.length ls)), Returns).
Proof.
  intros H. induction H as [|l ls Hl _ IH]; intros i; [reflexivity|].
  simpl. now rewrite Hl, IH.
Qed.

Lemma process_line_expected (line : jsstring) :
  Forall (fun l : Listener => forall d, l d = Returns) listeners ->
  process_line JSON_parse listeners line
  = expected_emission JSON_parse (List.length listeners) line.
Proof.
  intros H. unfold process_line, expected_emission, classify.
  destruct (trim line) as [|c t]; [reflexivity|].
  destruct (JSON_parse (c :: t)); [|reflexivity].
  now rewrite (emit_returning _ _ H).
Qed.

Lemma responses_app (a b : list Output) :
  responses (a ++ b) = responses a ++ responses b.
Proof. apply flat_map_app. Qed.

Lemma forwarded_to_app (i : nat) (a b : list Output) :
  forwarded_to i (a ++ b) = forwarded_to i a ++ forwarded_to i b.
Proof. apply flat_map_app. Qed.

Lemma responses_of_forwards (d : Buffer) (js : list nat) :
  responses (map (fun j => Forwarded j d) js) = [].
Proof. induction js; [reflexivity | exact IHjs]. Qed.

Lemma forwarded_to_each (d : Buffer) (i n : nat) :
  forall s,
    (s <= i < s + n)%nat ->
    forwarded_to i (map (fun j => Forwarded j d) (seq s n)) = [d].
Proof.
  induction n as [|n IH]; intros s H; [lia|].
  simpl. destruct (Nat.eqb_spec i s) as [-> | Hne].
  - simpl. f_equal.
    clear IH H. generalize (S s) as k, (Nat.lt_succ_diag_r s).
    induction n as [|n IHn]; intros k Hk; [reflexivity|].
    simpl. destruct (Nat.eqb_spec s k); [lia|]. simpl.
    apply IHn. lia.
  - simpl. apply IH. lia.
Qed.

Lemma responses_expected (n : nat) (line : jsstring) :
  responses (expected_emission JSON_parse n line)
  = expected_responses JSON_parse line.
Proof.
  unfold expected_emission, expected_responses.
  destruct (classify JSON_parse line); try reflexivity.
  apply responses_of_forwards.
Qed.

Lemma forwarded_expected (i n : nat) (line : jsstring) :
  (i < n)%nat ->
  forwarded_to i (expected_emission JSON_parse n line)
  = expected_forwards JSON_parse line.
Proof.
  intros H. unfold expected_emission, expected_forwards.
  destruct (classify JSON_parse line); try reflexivity.
  apply forwarded_to_each. lia.
Qed.

(** C5.  A chunk of complete lines, fed to a framer with an empty buffer
    and listeners that return normally: every line is handled in order,
    whatever the lines around it are.  The emissions are those of the
    lines one after the other; each malformed line yields exactly one
    error response, with code -32700, [id] null and the capped excerpt in
    [data.received]; each valid line is forwarded to every listener;
    nothing stays in the buffer. *)
Theorem mixed_lines_all_handled (lines : list Buffer) :
  Forall (fun l : Listener => forall d, l d = Returns) listeners ->
  Forall (fun l : Buffer => ~ In x0a l) lines ->
  fst (onData JSON_parse listeners [] (complete_lines lines)) = []
  /\ snd (onData JSON_parse listeners [] (complete_lines lines))
     = flat_map (expected_emission JSON_parse (List.length listeners))
         (map Buffer_toString lines)
  /\ responses (snd (onData JSON_parse listeners [] (complete_lines lines)))
     = flat_map (expected_responses JSON_parse) (map Buffer_toString lines)
  /\ forall i,
       (i < List.length listeners)%nat ->
       forwarded_to i
         (snd (onData JSON_parse listeners [] (complete_lines lines)))
       = flat_map (expected_forwards JSON_parse) (map Buffer_toString lines).
Proof.
  intros Hret Hlines.
  assert (Hrun : onData JSON_parse listeners [] (complete_lines lines)
                 = ([], flat_map
                          (expected_emission JSON_parse
                             (List.length listeners))
                          (map Buffer_toString lines))).
  { rewrite (onData_lines [] (complete_lines lines)
               (map Buffer_toString lines) []).
    - f_equal. apply flat_map_ext. intros l.
      now apply process_line_expected.
    - simpl. rewrite toString_complete_lines. now rewrite app_nil_r.
    - apply Forall_map. revert Hlines. apply Forall_impl.
      intros l Hl. now apply decode_no_LF.
    - reflexivity. }
  rewrite Hrun. clear Hrun. cbn [fst snd]. repeat split.
  - induction (map Buffer_toString lines) as [|t ts IH]; [reflexivity|].
    cbn [flat_map]. now rewrite responses_app, responses_expected, IH.
  - intros i Hi.
    induction (map Buffer_toString lines) as [|t ts IH]; [reflexivity|].
    cbn [flat_map].
    now rewrite forwarded_to_app, (forwarded_expected _ _ _ Hi), IH.
Qed.

End FramerFacts.

Section FramerRuns.

Import Server.

Lemma no_x0a_spec (l : Buffer) : no_x0a l = true -> ~ In x0a l.
Proof.
  unfold no_x0a. rewrite forallb_forall. intros H Hin.
  specialize (H _ Hin). discriminate.
Qed.

Lemma mixed_lines_all_handled_witness :
  fst (onData Json.parse [returning] [] (complete_lines sample_lines)) = []
  /\ snd (onData Json.parse [returning] [] (complete_lines sample_lines))
     = flat_map (expected_emission Json.parse (List.length [returning]))
         (map Buffer_toString sample_lines)
  /\ responses
       (snd (onData Json.parse [returning] [] (complete_lines sample_lines)))
     = flat_map (expected_responses Json.parse)
         (map Buffer_toString sample_lines)
  /\ forall i,
       (i < List.length [returning])%nat ->
       forwarded_to i
         (snd (onData Json.parse [returning] []
                 (complete_lines sample_lines)))
       = flat_map (expected_forwards Json.parse)
           (map Buffer_toString sample_lines).
Proof.
  apply (mixed_lines_all_handled Json.parse [returning] sample_lines).
  - constructor; [intros d; reflexivity | constructor].
  - repeat constructor; apply no_x0a_spec; reflexivity.
Defined.

(** The sample chunk, evaluated: the valid lines are forwarded around the
    one error response of the malformed line, in the order of the input. *)
Lemma sample_chunk_trace :
  map (fun o => match o with
                | Forwarded i d => inl (i, d)
                | Logged _ => inr None
                | Written r => inr (Some (error_code r, id r))
                end)
    (snd (onData Json.parse [returning] [] (complete_lines sample_lines)))
  = [inl (0%nat, bytes_of_units (quoted "{'a':1}" ++ [LF]));
     inr None;
     inr (Some ((-32700)%Z, None));
     inl (0%nat, bytes_of_units (str "2" ++ [LF]))].
Proof. vm_compute. reflexivity. Qed.

(** The scenario of the two ASCII chunks: they yield the one message for
    id 1, the same as the whole line in one chunk. *)
Lemma split_scenario_id_1 :
  feed Json.parse [returning] []
    [bytes_of_units (quoted "{'id':1,'meth");
     bytes_of_units (quoted "od':'x'}" ++ [LF])]
  = ([], [Forwarded 0
            (bytes_of_units (quoted "{'id':1,'method':'x'}" ++ [LF]))])
  /\ feed Json.parse [returning] []
       [bytes_of_units (quoted "{'id':1,'method':'x'}" ++ [LF])]
     = ([], [Forwarded 0
               (bytes_of_units (quoted "{'id':1,'method':'x'}" ++ [LF]))]).
Proof. split; vm_compute; reflexivity. Qed.

(** C4 at a failing input, with the listeners the handler has when the
    server starts.  The line is a byte order mark followed by the empty
    object, bytes EF BB BF 7B 7D.  In one chunk the mark is decoded to
    U+FEFF, stripped by [trim], and the valid line is passed without an
    error.  Cut after the first byte of the mark, each chunk is decoded
    on its own, the three bytes of the mark become three U+FFFD, and the
    handler answers the same line with a parse-error response. *)
Theorem split_inside_character_spurious_error :
  feed Json.parse listeners_at_start [] [[xef; xbb; xbf; x7b; x7d; x0a]]
  = ([], [])
  /\ fst (feed Json.parse listeners_at_start []
            [[xef]; [xbb; xbf; x7b; x7d; x0a]]) = []
  /\ map (fun r => (error_code r, id r, option_map received (data r)))
       (responses
          (snd (feed Json.parse listeners_at_start []
                  [[xef]; [xbb; xbf; x7b; x7d; x0a]])))
     = [((-32700)%Z, None,
         Some [0xFFFD; 0xFFFD; 0xFFFD; 0x7B; 0x7D]%N)]
  /\ Buffer_toString [xef] ++ Buffer_toString [xbb; xbf; x7b; x7d; x0a]
     <> Buffer_toString ([xef] ++ [xbb; xbf; x7b; x7d; x0a]).
Proof. repeat split; vm_compute; discriminate. Qed.

(** The two cases of [tests/mcp-server.test.ts] on invalid JSON. *)
Example invalid_json_reported :
  responses
    (snd (onData Json.parse [returning] []
            (bytes_of_units
               (quoted "{'invalid': json missing bracket" ++ [LF]))))
  = [{| jsonrpc := str "2.0"; id := None; error_code := (-32700)%Z;
        error_message := str "Invalid JSON received";
        data := Some {| details := Json.SyntaxError_message;
                        received :=
                          quoted "{'invalid': json missing bracket" |} |}].
Proof. vm_compute. reflexivity. Qed.

Example json_with_line_break_reported_twice :
  map error_code
    (responses
       (snd (onData Json.parse [returning] []
               (bytes_of_units
                  (quoted "{'id':3,'params':{'name':'gemini_query" ++ [LF]
                   ++ quoted "  ','arguments':{'prompt':'What is 2+2?'}}}"
                   ++ [LF])))))
  = [(-32700)%Z; (-32700)%Z].
Proof. vm_compute. reflexivity. Qed.

End FramerRuns.

(* ================================================================== *)
(** ** The cases of [tests/gemini-cli.test.ts], evaluated              *)
(* ================================================================== *)

Section ReplayedTests.

Import GeminiCli.

Example sanitize_null_bytes :
  sanitizePrompt (str "Hello" ++ [0%N] ++ str "World") = str "HelloWorld".
Proof. reflexivity. Qed.

Example sanitize_control_characters :
  sanitizePrompt (str "Hello" ++ [1; 2; 3]%N ++ str "World")
  = str "HelloWorld".
Proof. reflexivity. Qed.

Example sanitize_trims :
  sanitizePrompt (str "  Hello World  ") = str "Hello World".
Proof. reflexivity. Qed.

Example sanitize_preserves :
  sanitizePrompt (str "Hello World! How are you? 123 @#$%")
  = str "Hello World! How are you? 123 @#$%".
Proof. reflexivity. Qed.

Example simulated_two_plus_two :
  simulateGeminiResponse toLowerCase_ascii (str "What is 2+2?") None
  = {| success := true; output := str "2 + 2 = 4";
       error := None; exitCode := None |}.
Proof. reflexivity. Qed.

Example simulated_hello :
  output (simulateGeminiResponse toLowerCase_ascii (str "Hello") None)
  = str "Hello! How can I help you today?".
Proof. reflexivity. Qed.

Example simulated_generic_with_model :
  includes
    (output (simulateGeminiResponse toLowerCase_ascii (str "Random prompt")
               (Some (str "gemini-1.5-flash"))))
    (str "(using model: gemini-1.5-flash)") = true.
Proof. reflexivity. Qed.

Example simulated_truncates :
  includes
    (output (simulateGeminiResponse toLowerCase_ascii (repeat 0x61%N 100)
               None))
    (repeat 0x61%N 30 ++ str "...") = true.
Proof. vm_compute. reflexivity. Qed.

Example executes_with_default_model :
  executeGeminiCommand toLowerCase_ascii false (str "test prompt") None
    [StdoutData (bytes_of_units (str "Response from Gemini"));
     Close (Some 0%Z)]
  = {| spawns := [(str "gemini",
                   [str "-m"; str "gemini-2.5-flash"; str "-p";
                    str "test prompt"])];
       signals := [];
       settlement :=
         Fulfilled {| success := true; output := str "Response from Gemini";
                      error := None; exitCode := None |} |}.
Proof. vm_compute. reflexivity. Qed.

Example accumulates_stdout :
  settlement
    (executeGeminiCommand toLowerCase_ascii false (str "test prompt") None
       [StdoutData (bytes_of_units (str "First "));
        StdoutData (bytes_of_units (str "part of "));
        StdoutData (bytes_of_units (str "response"));
        Close (Some 0%Z)])
  = Fulfilled {| success := true; output := str "First part of response";
                 error := None; exitCode := None |}.
Proof. vm_compute. reflexivity. Qed.

Example empty_response_fails :
  settlement
    (executeGeminiCommand toLowerCase_ascii false (str "test prompt") None
       [StdoutData (bytes_of_units (str "   ")); Close (Some 0%Z)])
  = Fulfilled {| success := false; output := [];
                 error := Some (str "Gemini CLI returned empty response");
                 exitCode := Some 0%Z |}.
Proof. vm_compute. reflexivity. Qed.

Example non_zero_exit_code :
  settlement
    (executeGeminiCommand toLowerCase_ascii false (str "test prompt") None
       [StderrData (bytes_of_units (str "Error message"));
        Close (Some 1%Z)])
  = Fulfilled {| success := false; output := [];
                 error := Some (str "Error message");
                 exitCode := Some 1%Z |}.
Proof. vm_compute. reflexivity. Qed.

Example command_not_found :
  settlement
    (executeGeminiCommand toLowerCase_ascii false (str "test prompt") None
       [ChildError {| code := Some (str "ENOENT");
                      message := str "Command not found" |}])
  = Fulfilled
      {| success := false; output := [];
         error :=
           Some (str "Gemini CLI not found. Please ensure it is installed and in your PATH.");
         exitCode := Some 1%Z |}.
Proof. vm_compute. reflexivity. Qed.

Example close_with_code_124 :
  settlement
    (executeGeminiCommand toLowerCase_ascii false (str "test prompt") None
       [Close (Some 124%Z)])
  = Fulfilled {| success := false; output := [];
                 error := Some (str "Command failed with exit code 124");
                 exitCode := Some 124%Z |}.
Proof. vm_compute. reflexivity. Qed.

Example killed_by_signal :
  close_result None [] []
  = {| success := false; output := [];
       error := Some (str "Command failed with exit code null");
       exitCode := Some 1%Z |}.
Proof. reflexivity. Qed.

End ReplayedTests.

(* ================================================================== *)
(** ** Laws of [trim] and [sanitizePrompt]                             *)
(* ================================================================== *)

Section SanitizationLaws.

Import GeminiCli.

Lemma trimStart_fixed (s : jsstring) :
  (forall c r, s = c :: r -> isTrimmed c = false) -> trimStart s = s.
Proof.
  destruct s as [|c r]; [reflexivity|].
  intros H. apply trimStart_keeps. exact (H c r eq_refl).
Qed.

Lemma trimEnd_fixed (s : jsstring) :
  (forall r c, s = r ++ [c] -> isTrimmed c = false) -> trimEnd s = s.
Proof.
  intros H. unfold trimEnd.
  rewrite trimStart_fixed; [apply rev_involutive|].
  intros c r Hrev. apply (H (rev r) c).
  rewrite <- (rev_involutive s), Hrev. reflexivity.
Qed.

(** [trim] leaves a string alone exactly when it has no outer white
    space. *)
Lemma trim_fixed_iff (s : jsstring) :
  trim s = s <-> no_outer_whitespace s.
Proof.
  split.
  - intros H. split.
    + intros c r Hs. rewrite <- H in Hs. exact (trim_head _ _ _ Hs).
    + intros r c Hs. rewrite <- H in Hs. exact (trim_last _ _ _ Hs).
  - intros [Hh Hl]. unfold trim.
    rewrite (trimStart_fixed _ Hh). now apply trimEnd_fixed.
Qed.

Lemma trim_idempotent (s : jsstring) : trim (trim s) = trim s.
Proof.
  apply trim_fixed_iff. split.
  - intros c r. apply trim_head.
  - intros r c. apply trim_last.
Qed.

Lemma remove_all_fixed (cls : N -> bool) (s : jsstring) :
  (forall c, In c s -> cls c = false) -> remove_all cls s = s.
Proof.
  induction s as [|c s IH]; intros H; [reflexivity|].
  unfold remove_all in *. simpl.
  rewrite (H c (or_introl eq_refl)). simpl. f_equal.
  apply IH. intros x Hx. apply H. now right.
Qed.

Lemma remove_all_length (cls : N -> bool) (s : jsstring) :
  (List.length (remove_all cls s) <= List.length s)%nat.
Proof. unfold remove_all. apply filter_length_le. Qed.

Lemma sanitized_as_one_pass (prompt : jsstring) :
  sanitizePrompt prompt = trim (remove_all in_control_class prompt).
Proof. unfold sanitizePrompt. now rewrite null_pass_subsumed. Qed.

(** X1.  [sanitizePrompt] returns its argument unchanged exactly when the
    argument holds no unit of the removed class and has no leading or
    trailing white space. *)
Theorem sanitizePrompt_fixed_iff (prompt : jsstring) :
  sanitizePrompt prompt = prompt
  <-> (forall c, In c prompt -> in_control_class c = false)
      /\ no_outer_whitespace prompt.
Proof.
  rewrite sanitized_as_one_pass. split.
  - intros H. split.
    + intros c Hc. rewrite <- H in Hc. apply trim_incl in Hc.
      now apply remove_all_spec in Hc.
    + rewrite <- H. apply trim_fixed_iff, trim_idempotent.
  - intros [Hcls Hws].
    rewrite (remove_all_fixed _ _ Hcls). now apply trim_fixed_iff.
Qed.

(** X2.  Sanitizing twice is sanitizing once. *)
Theorem sanitizePrompt_idempotent (prompt : jsstring) :
  sanitizePrompt (sanitizePrompt prompt) = sanitizePrompt prompt.
Proof.
  rewrite (sanitized_as_one_pass (sanitizePrompt prompt)).
  rewrite remove_all_fixed.
  - rewrite sanitized_as_one_pass. apply trim_idempotent.
  - intros c Hc. rewrite sanitized_as_one_pass in Hc.
    apply trim_incl in Hc. now apply remove_all_spec in Hc.
Qed.

(** X3.  The sanitized prompt is empty exactly when every unit of the
    prompt is in the removed class or is white space; and it is never
    longer than the prompt. *)
Theorem sanitizePrompt_empty_iff (prompt : jsstring) :
  (sanitizePrompt prompt = []
   <-> forall c, In c prompt ->
                 in_control_class c = true \/ isTrimmed c = true)
  /\ (List.length (sanitizePrompt prompt) <= List.length prompt)%nat.
Proof.
  rewrite sanitized_as_one_pass. split; [split|].
  - intros He c Hc.
    destruct (in_control_class c) eqn:Hcls; [now left|].
    destruct (isTrimmed c) eqn:Hws; [now right|].
    assert (Hin : In c (trim (remove_all in_control_class prompt))).
    { apply trim_keeps; [|exact Hws]. apply remove_all_spec. now split. }
    rewrite He in Hin. destruct Hin.
  - intros H. apply trim_all_whitespace. apply forallb_forall.
    intros c Hc. apply remove_all_spec in Hc as [Hin Hcls].
    destruct (H c Hin) as [H1 | H1]; congruence.
  - pose proof (trim_length (remove_all in_control_class prompt)).
    pose proof (remove_all_length in_control_class prompt). lia.
Qed.

End SanitizationLaws.

(* ================================================================== *)
(** ** More on the supervisor: pending, kills, exit codes              *)
(* ================================================================== *)

Section SupervisorLaws.

Import GeminiCli.

Lemma decisive_none (evs : list ChildEvent) :
  decisive evs = None <-> forallb is_data evs = true.
Proof.
  unfold decisive. induction evs as [|ev evs IH]; simpl; [tauto|].
  destruct (is_data ev); simpl; [exact IH|]. split; discriminate.
Qed.

Lemma decisive_some (evs : list ChildEvent) (ev : ChildEvent) :
  decisive evs = Some ev ->
  exists pre post,
    evs = pre ++ ev :: post
    /\ forallb is_data pre = true /\ is_data ev = false.
Proof.
  unfold decisive. induction evs as [|a evs IH]; simpl; [discriminate|].
  destruct (is_data a) eqn:Ha; simpl.
  - intros H. destruct (IH H) as [pre [post [-> [Hp He]]]].
    exists (a :: pre), post. simpl. rewrite Ha. auto.
  - intros H. injection H as <-. exists [], evs. auto.
Qed.

(** X4.  The promise of an invocation stays pending exactly as long as
    nothing but output chunks has been delivered: output alone never
    resolves it, and the first close, error or timer event does. *)
Theorem pending_iff_only_output (evs : list ChildEvent) :
  settled (deliver spawned evs) = Unsettled <-> forallb is_data evs = true.
Proof.
  unfold settled, promised. split.
  - intros H. apply decisive_none.
    destruct (decisive evs) as [ev|] eqn:Hd; [|reflexivity].
    destruct (decisive_some _ _ Hd) as [pre [post [-> [Hp He]]]].
    destruct (race_decided pre post ev Hp He) as [r [_ [_ [Hr _]]]].
    rewrite Hr in H. discriminate.
  - intros H. rewrite (data_only evs H). reflexivity.
Qed.

(** X5.  The child is sent a signal only by the timeout: over any
    sequence of events it is sent SIGKILL once when the timer expires
    before the process closes or fails, and nothing otherwise; a process
    that has closed or failed is never killed afterwards. *)
Theorem killed_only_by_timeout (evs : list ChildEvent) :
  kills (deliver spawned evs)
  = match decisive evs with
    | Some TimerFired => [SIGKILL]
    | _ => []
    end.
Proof.
  destruct (decisive evs) as [ev|] eqn:Hd.
  - destruct (decisive_some _ _ Hd) as [pre [post [-> [Hp He]]]].
    destruct (race_decided pre post ev Hp He) as [r [_ [_ [_ Hk]]]].
    rewrite Hk. now destruct ev.
  - apply decisive_none in Hd. rewrite (data_only evs Hd). reflexivity.
Qed.

(** X6.  The outcome depends on the output only through the two collected
    texts: two runs whose chunks add up to the same stdout and stderr
    texts, and whose first close, error or timer event is the same, end
    in the same result, however the output was cut into chunks or
    interleaved and whatever is delivered later. *)
Theorem outcome_ignores_chunking (pre pre' post post' : list ChildEvent)
  (ev : ChildEvent) :
  forallb is_data pre = true -> forallb is_data pre' = true ->
  is_data ev = false ->
  collected_stdout pre = collected_stdout pre' ->
  collected_stderr pre = collected_stderr pre' ->
  promised (deliver spawned (pre ++ ev :: post))
  = promised (deliver spawned (pre' ++ ev :: post')).
Proof.
  intros Hp Hp' He Hout Herr.
  destruct (race_decided pre post ev Hp He) as [r [Hr [_ [Hrs _]]]].
  destruct (race_decided pre' post' ev Hp' He) as [r' [Hr' [_ [Hrs' _]]]].
  unfold promised. rewrite Hrs, Hrs'. simpl. rewrite <- Hr, <- Hr'.
  rewrite (data_only pre Hp), (data_only pre' Hp').
  destruct ev; try discriminate; simpl; congruence.
Qed.

Lemma outcome_ignores_chunking_witness :
  promised
    (deliver spawned
       ([StdoutData [x68]; StderrData [x65]; StdoutData [x69]]
        ++ Close (Some 3%Z) :: [TimerFired]))
  = promised
      (deliver spawned
         ([StderrData [x65]; StdoutData [x68; x69]]
          ++ Close (Some 3%Z) :: [])).
Proof.
  apply (outcome_ignores_chunking
           [StdoutData [x68]; StderrData [x65]; StdoutData [x69]]
           [StderrData [x65]; StdoutData [x68; x69]]
           [TimerFired] [] (Close (Some 3%Z))); reflexivity.
Defined.

(** X7.  When the process closes first with a code other than 0, or with
    no code because a signal ended it, the result is a failure that
    keeps the trimmed stdout as output, reports the trimmed stderr when
    there is some and a generated message naming the code otherwise, and
    carries the code itself, or 1 when there is none: never 0. *)
Theorem failed_exit_reported (pre post : list ChildEvent) (c : option Z) :
  forallb is_data pre = true ->
  c <> Some 0%Z ->
  exists r,
    promised (deliver spawned (pre ++ Close c :: post)) = Some r
    /\ success r = false
    /\ output r = trim (collected_stdout pre)
    /\ (trim (collected_stderr pre) <> [] ->
        error r = Some (trim (collected_stderr pre)))
    /\ (trim (collected_stderr pre) = [] ->
        error r = Some (str "Command failed with exit code "
                        ++ code_toString c))
    /\ exitCode r = Some (match c with Some k => k | None => 1%Z end)
    /\ exitCode r <> Some 0%Z.
Proof.
  intros Hp Hc.
  destruct (race_decided pre post (Close c) Hp eq_refl)
    as [r [Hr [_ [Hrs _]]]].
  exists r. unfold promised. rewrite Hrs. split; [reflexivity|].
  simpl in Hr. injection Hr as <-.
  rewrite (data_only pre Hp). simpl.
  assert (Hz : is_zero c = false).
  { destruct c as [k|]; [|reflexivity]. simpl.
    apply Z.eqb_neq. intros ->. now elim Hc. }
  unfold close_result. rewrite Hz. simpl.
  assert (Hcode : code_or c 1 = match c with Some k => k | None => 1%Z end).
  { destruct c as [k|]; [|reflexivity]. simpl in *. now rewrite Hz. }
  rewrite Hcode. repeat split.
  - intros Hne. destruct (trim (collected_stderr pre)); [now elim Hne|].
    reflexivity.
  - intros ->. reflexivity.
  - destruct c as [k|]; [|discriminate].
    intros H. injection H as ->. now elim Hc.
Qed.

Lemma failed_exit_reported_witness :
  exists r,
    promised
      (deliver spawned ([StdoutData [x68; x69; x0a]] ++ Close None :: []))
    = Some r
    /\ success r = false
    /\ output r = trim (collected_stdout [StdoutData [x68; x69; x0a]])
    /\ (trim (collected_stderr [StdoutData [x68; x69; x0a]]) <> [] ->
        error r = Some (trim (collected_stderr [StdoutData [x68; x69; x0a]])))
    /\ (trim (collected_stderr [StdoutData [x68; x69; x0a]]) = [] ->
        error r = Some (str "Command failed with exit code "
                        ++ code_toString None))
    /\ exitCode r = Some 1%Z
    /\ exitCode r <> Some 0%Z.
Proof.
  apply (failed_exit_reported [StdoutData [x68; x69; x0a]] [] None).
  - reflexivity.
  - discriminate.
Defined.

(** X8.  When the [error] event comes first, whatever output had been
    collected is dropped: the result is a failure with empty output and
    exit code 1, whose message is the not-found text for the code
    ENOENT, the timeout text for ETIMEDOUT, and the error's own message
    after a fixed prefix otherwise. *)
Theorem spawn_error_reported (pre post : list ChildEvent) (e : GeminiError) :
  forallb is_data pre = true ->
  exists msg,
    promised (deliver spawned (pre ++ ChildError e :: post))
    = Some {| success := false; output := [];
              error := Some msg; exitCode := Some 1%Z |}
    /\ (code e = Some (str "ENOENT") ->
        msg = str "Gemini CLI not found. Please ensure it is installed and in your PATH.")
    /\ (code e = Some (str "ETIMEDOUT") ->
        msg = str "Command timed out after 10 seconds")
    /\ (code e <> Some (str "ENOENT") -> code e <> Some (str "ETIMEDOUT") ->
        msg = str "Command execution error: " ++ message e).
Proof.
  intros Hp.
  destruct (race_decided pre post (ChildError e) Hp eq_refl)
    as [r [Hr [_ [Hrs _]]]].
  simpl in Hr. injection Hr as <-.
  exists (error_message e). unfold promised. rewrite Hrs.
  split; [reflexivity|].
  assert (Hcode : forall k, has_code e k = true <-> code e = Some (str k)).
  { intros k. unfold has_code, unit_eqb. destruct (code e) as [c|].
    - destruct (list_eq_dec N.eq_dec c (str k)); split; congruence.
    - split; discriminate. }
  unfold error_message. repeat split.
  - intros H. apply Hcode in H. now rewrite H.
  - intros H.
    destruct (has_code e "ENOENT") eqn:H1.
    + apply Hcode in H1. rewrite H in H1. discriminate.
    + apply Hcode in H. now rewrite H.
  - intros H1 H2.
    destruct (has_code e "ENOENT") eqn:E1; [now apply Hcode in E1|].
    destruct (has_code e "ETIMEDOUT") eqn:E2; [now apply Hcode in E2|].
    reflexivity.
Qed.

Lemma spawn_error_reported_witness :
  exists msg,
    promised
      (deliver spawned
         ([StdoutData [x68]]
          ++ ChildError {| code := Some (str "EACCES");
                           message := str "denied" |} :: [Close None]))
    = Some {| success := false; output := [];
              error := Some msg; exitCode := Some 1%Z |}
    /\ (Some (str "EACCES") = Some (str "ENOENT") ->
        msg = str "Gemini CLI not found. Please ensure it is installed and in your PATH.")
    /\ (Some (str "EACCES") = Some (str "ETIMEDOUT") ->
        msg = str "Command timed out after 10 seconds")
    /\ (Some (str "EACCES") <> Some (str "ENOENT") ->
        Some (str "EACCES") <> Some (str "ETIMEDOUT") ->
        msg = str "Command execution error: " ++ str "denied").
Proof.
  apply (spawn_error_reported [StdoutData [x68]] [Close None]
           {| code := Some (str "EACCES"); message := str "denied" |}).
  reflexivity.
Defined.

End SupervisorLaws.

(* ================================================================== *)
(** ** More on the framer: lossless framing, chunking, listeners       *)
(* ================================================================== *)

Section FramerLaws.

Import GeminiCli Server.

Variable JSON_parse : jsstring -> Completion.
Variable listeners : list Listener.

Lemma split_nonempty (sep : N) (s : jsstring) : split sep s <> [].
Proof.
  induction s as [|c s IH]; simpl; [discriminate|].
  destruct (c =? sep)%N; [discriminate|].
  destruct (split sep s); [now elim IH | discriminate].
Qed.

(** Splitting a concatenation: the segments of the first part, the last
    of them continued by the second part. *)
Lemma split_app (sep : N) (a b : jsstring) :
  split sep (a ++ b)
  = removelast (split sep a) ++ split sep (last (split sep a) [] ++ b).
Proof.
  induction a as [|c a IH]; [reflexivity|].
  cbn [app split].
  pose proof (split_nonempty sep a) as Hne.
  destruct (c =? sep)%N eqn:Hc.
  - rewrite IH. destruct (split sep a) as [|seg segs]; [now elim Hne|].
    reflexivity.
  - rewrite IH. destruct (split sep a) as [|seg segs]; [now elim Hne|].
    destruct segs as [|seg2 segs].
    + cbn [removelast last app split]. rewrite Hc. reflexivity.
    + reflexivity.
Qed.

(** Joining the segments back with the separator gives the text. *)
Lemma split_join (sep : N) (s : jsstring) :
  flat_map (fun l => l ++ [sep]) (removelast (split sep s))
  ++ last (split sep s) [] = s.
Proof.
  induction s as [|c s IH]; [reflexivity|].
  cbn [split].
  pose proof (split_nonempty sep s) as Hne.
  destruct (N.eqb_spec c sep) as [-> | Hc].
  - destruct (split sep s) as [|seg segs]; [now elim Hne|].
    cbn [removelast last flat_map app] in *. now rewrite IH.
  - destruct (split sep s) as [|seg segs]; [now elim Hne|].
    destruct segs as [|seg2 segs].
    + cbn [removelast last flat_map app] in *. now rewrite IH.
    + cbn [removelast last flat_map app] in *.
      rewrite <- IH. rewrite <- !app_assoc. reflexivity.
Qed.

Lemma split_segments (s : jsstring) :
  Forall (fun l => no_LF l = true) (split LF s).
Proof.
  induction s as [|c s IH]; [repeat constructor|].
  cbn [split].
  destruct (c =? LF)%N eqn:Hc; [constructor; [reflexivity | exact IH]|].
  destruct (split LF s) as [|seg segs]; [repeat constructor; cbn; now rewrite Hc|].
  inversion IH as [|? ? Hseg Hsegs]; subst.
  constructor; [|exact Hsegs].
  change (no_LF (c :: seg)) with (negb (c =? LF)%N && no_LF seg).
  now rewrite Hc, Hseg.
Qed.

Lemma pop_as_last {A : Type} (d : A) (l : list A) :
  l <> [] -> pop l = (Some (last l d), removelast l).
Proof.
  intros H. rewrite (app_removelast_last d H) at 1. apply pop_last.
Qed.

Lemma onData_unfolded (buffer : jsstring) (chunk : Buffer) :
  onData JSON_parse listeners buffer chunk
  = (last (split LF (buffer ++ Buffer_toString chunk)) [],
     flat_map (process_line JSON_parse listeners)
       (removelast (split LF (buffer ++ Buffer_toString chunk)))).
Proof.
  unfold onData.
  rewrite (pop_as_last [] _ (split_nonempty LF _)).
  now rewrite kept_tail_some.
Qed.


Lemma complete_lines_no_LF (s : jsstring) :
  Forall (fun l => no_LF l = true) (removelast (split LF s)).
Proof.
  pose proof (split_segments s) as Hall.
  rewrite (app_removelast_last [] (split_nonempty LF s)) in Hall.
  now apply Forall_app in Hall as [Hlines _].
Qed.

(** X16.  Framing loses nothing and keeps its invariant.  Whatever the
    buffer and the chunk, the handler processes a list of lines and
    keeps a tail such that the lines, each followed by a line feed, and
    then the tail are exactly the buffer followed by the decoded chunk;
    no processed line and no kept tail contains a line feed. *)
Theorem framing_is_lossless (buffer : jsstring) (chunk : Buffer) :
  exists lines,
    snd (onData JSON_parse listeners buffer chunk)
    = flat_map (process_line JSON_parse listeners) lines
    /\ flat_map (fun l => l ++ [LF]) lines
       ++ fst (onData JSON_parse listeners buffer chunk)
       = buffer ++ Buffer_toString chunk
    /\ Forall (fun l => no_LF l = true) lines
    /\ no_LF (fst (onData JSON_parse listeners buffer chunk)) = true.
Proof.
  rewrite onData_unfolded. cbn [fst snd].
  set (text := buffer ++ Buffer_toString chunk).
  exists (removelast (split LF text)).
  pose proof (split_segments text) as Hall.
  pose proof (split_nonempty LF text) as Hne.
  rewrite (app_removelast_last [] Hne) in Hall.
  apply Forall_app in Hall as [Hlines Hlast].
  repeat split.
  - apply split_join.
  - exact Hlines.
  - now inversion Hlast.
Qed.

Lemma last_of_app {A : Type} (d : A) (l l' : list A) :
  l' <> [] -> last (l ++ l') d = last l' d.
Proof.
  intros H. induction l as [|a l IH]; [reflexivity|].
  cbn [app]. rewrite <- IH.
  destruct (l ++ l') eqn:E; [|reflexivity].
  apply app_eq_nil in E as [_ E]. now elim H.
Qed.

Lemma feed_step (buffer : jsstring) (c : Buffer) (rest : list Buffer) :
  feed JSON_parse listeners buffer (c :: rest)
  = (fst (feed JSON_parse listeners
            (fst (onData JSON_parse listeners buffer c)) rest),
     snd (onData JSON_parse listeners buffer c)
     ++ snd (feed JSON_parse listeners
               (fst (onData JSON_parse listeners buffer c)) rest)).
Proof.
  cbn [feed]. destruct (onData JSON_parse listeners buffer c) as [b o].
  cbn [fst snd]. now destruct (feed JSON_parse listeners b rest).
Qed.

(** X17.  Where chunks are cut does not matter as long as the cut falls
    between two characters: two successive chunks, the first ending at a
    character boundary, make the handler emit the same and keep the same
    as their concatenation in one chunk, whatever the buffer held and
    whatever follows. *)
Theorem chunk_boundaries_invisible (buffer : jsstring) (c1 c2 : Buffer)
  (rest : list Buffer) :
  utf8_final Idle c1 = Idle ->
  feed JSON_parse listeners buffer (c1 :: c2 :: rest)
  = feed JSON_parse listeners buffer ((c1 ++ c2) :: rest).
Proof.
  intros Hidle.
  assert (Hsplit : split LF (buffer ++ Buffer_toString (c1 ++ c2))
                   = removelast (split LF (buffer ++ Buffer_toString c1))
                     ++ split LF
                          (last (split LF (buffer ++ Buffer_toString c1)) []
                           ++ Buffer_toString c2)).
  { unfold Buffer_toString at 1.
    rewrite (decode_at_boundary c1 c2 Idle Hidle), app_assoc.
    apply split_app. }
  rewrite !feed_step, !onData_unfolded. cbn [fst snd]. rewrite Hsplit.
  remember (split LF (buffer ++ Buffer_toString c1)) as S1 eqn:HS1.
  remember (split LF (last S1 [] ++ Buffer_toString c2)) as S2 eqn:HS2.
  assert (Hne : S2 <> []) by (subst S2; apply split_nonempty).
  rewrite (removelast_app _ Hne), (last_of_app [] _ _ Hne), flat_map_app.
  now rewrite app_assoc.
Qed.


Lemma emit_until_throw (before after : list Listener) (l : Listener)
  (d : Buffer) (e : Thrown) :
  Forall (fun k : Listener => k d = Returns) before ->
  l d = Throws e ->
  forall i,
    emit i (before ++ l :: after) d
    = (map (fun j => Forwarded j d) (seq i (S (List.length before))),
       Throws e).
Proof.
  intros Hb Hl. induction Hb as [|k before Hk _ IH]; intros i.
  - cbn [app emit]. now rewrite Hl.
  - cbn [app emit]. rewrite Hk, (IH (S i)). reflexivity.
Qed.

(** X18.  A listener that throws on a valid line is reported to the
    client as a parse error.  The line is forwarded to the listeners up
    to and including the one that throws, the later listeners never see
    it, and one response with code -32700 is written whose details are
    the thrown message and whose excerpt is the valid line. *)
Theorem listener_exception_reported (before after : list Listener)
  (l : Listener) (line : jsstring) (e : Thrown) :
  trim line <> [] ->
  JSON_parse (trim line) = Returns ->
  Forall (fun k : Listener => k (Buffer_from (trim line ++ [LF])) = Returns)
    before ->
  l (Buffer_from (trim line ++ [LF])) = Throws e ->
  process_line JSON_parse (before ++ l :: after) line
  = map (fun j => Forwarded j (Buffer_from (trim line ++ [LF])))
      (seq 0 (S (List.length before)))
    ++ [Logged (str "[GeminiMCP] Invalid JSON received: "
                ++ substring0 50 (trim line) ++ str "...");
        Written {| jsonrpc := str "2.0"; id := None;
                   error_code := (-32700)%Z;
                   error_message := str "Invalid JSON received";
                   data := Some {| details := details_of e;
                                   received := excerpt (trim line) |} |}].
Proof.
  intros Hne Hvalid Hb Hl. unfold process_line.
  destruct (trim line) as [|c t] eqn:Ht; [now elim Hne|].
  rewrite Hvalid, (emit_until_throw before after l _ e Hb Hl 0).
  reflexivity.
Qed.

Lemma responses_of_emit (ls : list Listener) (d : Buffer) :
  forall i, responses (fst (emit i ls d)) = [].
Proof.
  induction ls as [|k ls IH]; intros i; [reflexivity|].
  cbn [emit]. destruct (k d); [|reflexivity].
  specialize (IH (S i)). destruct (emit (S i) ls d) as [out c].
  exact IH.
Qed.

Lemma process_line_one_response (line : jsstring) :
  (List.length (responses (process_line JSON_parse listeners line)) <= 1)%nat.
Proof.
  unfold process_line.
  destruct (trim line) as [|c t]; [simpl; lia|].
  destruct (JSON_parse (c :: t)); [|simpl; lia].
  pose proof (responses_of_emit listeners
                (Buffer_from ((c :: t) ++ [LF])) 0) as H.
  destruct (emit 0 listeners (Buffer_from ((c :: t) ++ [LF]))) as [out k].
  cbn [fst] in H. destruct k.
  - rewrite H. simpl. lia.
  - rewrite responses_app, H. simpl. lia.
Qed.

Lemma complete_lines_counted (s : jsstring) :
  List.length (removelast (split LF s)) = count_occ N.eq_dec s LF.
Proof.
  induction s as [|c s IH]; [reflexivity|].
  cbn [split count_occ].
  pose proof (split_nonempty LF s) as Hne.
  destruct (N.eq_dec c LF) as [-> | Hc].
  - change (LF =? LF)%N with true. cbn iota.
    destruct (split LF s) as [|seg segs]; [now elim Hne|].
    cbn [removelast List.length] in *. now rewrite IH.
  - apply N.eqb_neq in Hc. rewrite Hc.
    destruct (split LF s) as [|seg segs]; [now elim Hne|].
    destruct segs; exact IH.
Qed.

(** X20.  One data event makes the handler write at most one error
    response per line feed of the buffered text, whatever [JSON.parse]
    and the listeners do. *)
Theorem responses_bounded_by_line_feeds (buffer : jsstring) (chunk : Buffer) :
  (List.length (responses (snd (onData JSON_parse listeners buffer chunk)))
   <= count_occ N.eq_dec (buffer ++ Buffer_toString chunk) LF)%nat.
Proof.
  rewrite onData_unfolded. cbn [snd].
  rewrite <- complete_lines_counted.
  induction (removelast (split LF (buffer ++ Buffer_toString chunk)))
    as [|l ls IH]; [simpl; lia|].
  cbn [flat_map List.length]. rewrite responses_app, length_app.
  pose proof (process_line_one_response l). lia.
Qed.


Lemma utf8_of_code_point_no_10 (cp : N) :
  cp <> 10%N -> Forall (fun b => b <> 10%N) (utf8_of_code_point cp).
Proof.
  intros H. unfold utf8_of_code_point.
  destruct (cp <=? 0x7F)%N; [repeat constructor; exact H|].
  destruct (cp <=? 0x7FF)%N; [repeat constructor; lia|].
  destruct (cp <=? 0xFFFF)%N; repeat constructor; lia.
Qed.

(** The encoder writes the byte 0x0A only for a line feed. *)
Lemma utf8_encode_no_10 (n : nat) :
  forall t,
    (List.length t <= n)%nat -> no_LF t = true ->
    Forall (fun b => b <> 10%N) (utf8_encode t).
Proof.
  induction n as [|n IH]; intros t Hn Ht.
  - destruct t; [constructor | simpl in Hn; lia].
  - destruct t as [|c r]; [constructor|].
    change (no_LF (c :: r)) with (negb (c =? LF)%N && no_LF r) in Ht.
    apply andb_prop in Ht as [Hc Hr]. apply negb_true_iff, N.eqb_neq in Hc.
    simpl in Hn. cbn [utf8_encode].
    assert (Hrest : Forall (fun b => b <> 10%N) (utf8_encode r))
      by (apply IH; [lia | exact Hr]).
    assert (Hrepl : Forall (fun b => b <> 10%N)
                      (utf8_of_code_point REPLACEMENT))
      by (apply utf8_of_code_point_no_10; discriminate).
    destruct (isHighSurrogate c) eqn:Hh.
    + destruct r as [|d r']; [exact Hrepl|].
      destruct (isLowSurrogate d).
      * apply Forall_app. split.
        -- apply utf8_of_code_point_no_10. lia.
        -- apply IH; [simpl in Hn; lia|].
           change (no_LF (d :: r')) with (negb (d =? LF)%N && no_LF r') in Hr.
           now apply andb_prop in Hr as [_ Hr].
      * apply Forall_app. now split.
    + destruct (isLowSurrogate c); apply Forall_app; split; trivial.
      now apply utf8_of_code_point_no_10.
Qed.

Lemma utf8_encode_then_LF (n : nat) :
  forall t,
    (List.length t <= n)%nat ->
    utf8_encode (t ++ [LF]) = utf8_encode t ++ [10%N].
Proof.
  induction n as [|n IH]; intros t Hn.
  - destruct t; [reflexivity | simpl in Hn; lia].
  - destruct t as [|c r]; [reflexivity|].
    simpl in Hn. cbn [app utf8_encode].
    destruct (isHighSurrogate c).
    + destruct r as [|d r']; [reflexivity|].
      cbn [app]. destruct (isLowSurrogate d).
      * rewrite IH by (simpl in Hn; lia). now rewrite app_assoc.
      * change (d :: r' ++ [LF]) with ((d :: r') ++ [LF]).
        rewrite IH by lia. now rewrite app_assoc.
    + destruct (isLowSurrogate c); rewrite IH by lia; now rewrite app_assoc.
Qed.

Lemma bytes_of_units_x0a (l : list N) :
  In x0a (bytes_of_units l) -> In 10%N l.
Proof.
  unfold bytes_of_units. rewrite in_map_iff. intros [c [Hc Hin]].
  destruct (Byte.of_N c) as [b|] eqn:Hof; [|discriminate].
  subst b. apply Byte.to_of_N in Hof. now subst c.
Qed.

(** X19.  Every Buffer the handler forwards to a listener is exactly one
    line: the encoding of a non-empty trimmed line followed by the byte
    0x0A, with no other 0x0A byte in it. *)
Theorem forwarded_is_one_line (buffer : jsstring) (chunk : Buffer)
  (i : nat) (d : Buffer) :
  In (Forwarded i d) (snd (onData JSON_parse listeners buffer chunk)) ->
  exists t,
    d = Buffer_from t ++ [x0a]
    /\ t <> [] /\ no_outer_whitespace t
    /\ ~ In x0a (Buffer_from t).
Proof.
  rewrite onData_unfolded. cbn [snd]. intros Hin.
  apply in_flat_map in Hin as [line [Hline Hin]].
  pose proof (complete_lines_no_LF (buffer ++ Buffer_toString chunk)) as Hno.
  rewrite Forall_forall in Hno. specialize (Hno _ Hline).
  exists (trim line).
  assert (Hd : d = Buffer_from (trim line ++ [LF]) /\ trim line <> []).
  { unfold process_line in Hin.
    destruct (trim line) as [|c t]; [destruct Hin|].
    split; [|discriminate].
    assert (Hcatch : forall e,
               ~ In (Forwarded i d) (on_parse_error e (c :: t))).
    { intros e [H | [H | []]]; discriminate. }
    destruct (JSON_parse (c :: t)) as [|e]; [|now elim (Hcatch e)].
    pose proof (emit_forwards_only listeners
                  (Buffer_from ((c :: t) ++ [LF])) 0) as Hfw.
    destruct (emit 0 listeners (Buffer_from ((c :: t) ++ [LF]))) as [out k].
    cbn [fst] in Hfw.
    assert (Hfrom : In (Forwarded i d) out ->
                    d = Buffer_from ((c :: t) ++ [LF])).
    { intros H. destruct (Hfw _ H) as [j Hj]. now injection Hj. }
    destruct k as [|e]; [now apply Hfrom|].
    apply in_app_or in Hin as [H | H]; [now apply Hfrom|].
    now elim (Hcatch e). }
  destruct Hd as [-> Hne].
  assert (Htrim : no_LF (trim line) = true).
  { apply no_LF_In. intros H. apply trim_incl in H.
    now apply no_LF_In in Hno. }
  repeat split.
  - unfold Buffer_from, bytes_of_units.
    rewrite (utf8_encode_then_LF _ _ (le_n _)), map_app. reflexivity.
  - exact Hne.
  - intros c r. apply trim_head.
  - intros r c. apply trim_last.
  - intros H. apply bytes_of_units_x0a in H.
    pose proof (utf8_encode_no_10 _ _ (le_n _) Htrim) as Hall.
    rewrite Forall_forall in Hall. now apply (Hall _ H).
Qed.

End FramerLaws.

Lemma chunk_boundaries_invisible_witness :
  Server.feed Json.parse [Server.returning] (str "[1,")
    ([x32; x5d; x0a; x22; xc3; xa9] :: [x22; x0a; x7b] :: [[x7d; x0a]])
  = Server.feed Json.parse [Server.returning] (str "[1,")
      (([x32; x5d; x0a; x22; xc3; xa9] ++ [x22; x0a; x7b]) :: [[x7d; x0a]]).
Proof.
  apply (chunk_boundaries_invisible Json.parse [Server.returning]
           (str "[1,") [x32; x5d; x0a; x22; xc3; xa9] [x22; x0a; x7b]
           [[x7d; x0a]]).
  reflexivity.
Defined.

Lemma listener_exception_reported_witness :
  Server.process_line Json.parse
    ([Server.returning]
     ++ (fun _ => Throws (ErrorObject (str "boom"))) :: [Server.returning])
    (str " [1] ")
  = map (fun j => Server.Forwarded j (Buffer_from (trim (str " [1] ") ++ [LF])))
      (seq 0 (S (List.length [Server.returning])))
    ++ [Server.Logged (str "[GeminiMCP] Invalid JSON received: "
                       ++ substring0 50 (trim (str " [1] ")) ++ str "...");
        Server.Written
          {| Server.jsonrpc := str "2.0"; Server.id := None;
             Server.error_code := (-32700)%Z;
             Server.error_message := str "Invalid JSON received";
             Server.data :=
               Some {| Server.details :=
                         Server.details_of (ErrorObject (str "boom"));
                       Server.received :=
                         Server.excerpt (trim (str " [1] ")) |} |}].
Proof.
  apply (listener_exception_reported Json.parse [Server.returning]
           [Server.returning]
           (fun _ => Throws (ErrorObject (str "boom")))
           (str " [1] ") (ErrorObject (str "boom"))).
  - discriminate.
  - reflexivity.
  - repeat constructor.
  - reflexivity.
Defined.

Lemma forwarded_is_one_line_witness :
  exists t,
    [x5b; x31; x5d; x0a] = Buffer_from t ++ [x0a]
    /\ t <> [] /\ GeminiCli.no_outer_whitespace t
    /\ ~ In x0a (Buffer_from t).
Proof.
  apply (forwarded_is_one_line Json.parse [Server.returning; Server.returning]
           (str " [1") [x5d; x20; x0a; x6f] 1%nat [x5b; x31; x5d; x0a]).
  right. left. reflexivity.
Defined.

(* ================================================================== *)
(** ** More on the tool-call handler and the simulated mode            *)
(* ================================================================== *)

Section HandlerLaws.

Import GeminiCli Server.

Variable toLowerCase : jsstring -> jsstring.

Lemma unit_eqb_eq (a b : jsstring) : unit_eqb a b = true <-> a = b.
Proof.
  unfold unit_eqb. destruct (list_eq_dec N.eq_dec a b); split; congruence.
Qed.

Lemma ellipsis_after_length (n : nat) (prompt : jsstring) :
  (List.length (ellipsis_after n prompt) <= 3)%nat.
Proof. unfold ellipsis_after. destruct (n <? _)%nat; simpl; lia. Qed.

(** X9.  The simulated response has a bounded size whatever the prompt:
    it echoes at most the first 50 units of the prompt, and is never
    longer than 139 units plus the length of the model name. *)
Theorem simulated_response_bounded (prompt : jsstring)
  (model : option jsstring) :
  (List.length (output (simulateGeminiResponse toLowerCase prompt model))
   <= 139 + List.length (match model with Some m => m | None => [] end))%nat.
Proof.
  cbn [output simulateGeminiResponse]. unfold simulated_text.
  pose proof (ellipsis_after_length 50 prompt) as H50.
  pose proof (ellipsis_after_length 30 prompt) as H30.
  assert (F50 : (List.length (substring0 50 prompt) <= 50)%nat)
    by (unfold substring0; rewrite length_firstn; lia).
  assert (F30 : (List.length (substring0 30 prompt) <= 30)%nat)
    by (unfold substring0; rewrite length_firstn; lia).
  destruct (includes _ (str "2+2") || includes _ (str "2 + 2"));
    [simpl; lia|].
  destruct (includes _ (str "hello")); [simpl; lia|].
  destruct (includes _ (str "test")).
  - rewrite !length_app.
    change (List.length (str "This is a test response from the MCP server. You asked: "))
      with 56%nat.
    change (List.length [34%N]) with 1%nat.
    lia.
  - assert (Hm : (List.length
                    match truthy model with
                    | Some m => str " (using model: " ++ m ++ str ")"
                    | None => []
                    end
                  <= 16 + List.length
                            match model with Some m => m | None => [] end)%nat).
    { destruct model as [[|c m]|]; cbn [truthy]; cbv iota.
      - cbn [List.length]. lia.
      - rewrite !length_app.
        change (List.length (str " (using model: ")) with 15%nat.
        change (List.length (str ")")) with 1%nat. lia.
      - cbn [List.length]. lia. }
    rewrite !length_app.
    change (List.length (str "I received your prompt: ")) with 24%nat.
    change (List.length [34%N]) with 1%nat.
    change (List.length (str ". This is a simulated response since Gemini CLI is in test mode."))
      with 64%nat.
    lia.
Qed.

Lemma schema_accepts (p : jsstring) (m : JSValue) :
  (1 <= Z.of_nat (List.length p) <= 10000)%Z ->
  m = JUndefined \/ (exists s, m = JString s) ->
  GeminiQuerySchema_parse (Some {| arg_prompt := JString p; arg_model := m |})
  = inr {| prompt := p;
           model := match m with JString s => Some s | _ => None end |}.
Proof.
  intros [Hlo Hhi] Hm. unfold GeminiQuerySchema_parse, check_prompt.
  cbn [arg_prompt arg_model]. cbv iota.
  assert (H1 : (Z.of_nat (List.length p) <? 1)%Z = false)
    by (apply Z.ltb_ge; lia).
  assert (H2 : (10000 <? Z.of_nat (List.length p))%Z = false)
    by (apply Z.ltb_ge; lia).
  rewrite H1, H2.
  destruct Hm as [-> | [s ->]]; reflexivity.
Qed.

Lemma schema_accepts_only (args : option Arguments) (v : GeminiQueryRequest) :
  GeminiQuerySchema_parse args = inr v ->
  exists p m,
    args = Some {| arg_prompt := JString p; arg_model := m |}
    /\ (1 <= Z.of_nat (List.length p) <= 10000)%Z
    /\ (m = JUndefined \/ exists s, m = JString s).
Proof.
  unfold GeminiQuerySchema_parse.
  destruct args as [[ap am]|]; [|discriminate].
  cbn [arg_prompt arg_model].
  destruct ap as [| | | |p| |]; try (simpl; discriminate).
  unfold check_prompt.
  destruct (Z.of_nat (List.length p) <? 1)%Z eqn:H1; [simpl; discriminate|].
  destruct (10000 <? Z.of_nat (List.length p))%Z eqn:H2;
    [simpl; discriminate|].
  apply Z.ltb_ge in H1, H2.
  destruct am; simpl; try discriminate; intros _; exists p;
    eexists; (split; [reflexivity|]); (split; [lia|]); eauto.
Qed.


Lemma sanitized_passes_validation (p : jsstring) :
  sanitizePrompt p <> [] ->
  (Z.of_nat (List.length p) <= 10000)%Z ->
  trim (sanitizePrompt p) <> []
  /\ (Z.of_nat (List.length (sanitizePrompt p)) <= 10000)%Z.
Proof.
  intros Hne Hlen. split.
  - unfold sanitizePrompt. now rewrite trim_idempotent.
  - rewrite sanitized_as_one_pass.
    pose proof (trim_length (remove_all in_control_class p)).
    pose proof (remove_all_length in_control_class p). lia.
Qed.

(** The handler on a request the schema accepts, in real mode, when
    something is left of the prompt after sanitization. *)
Lemma handler_real_mode (p : jsstring) (m : JSValue)
  (events : list ChildEvent) :
  (1 <= Z.of_nat (List.length p) <= 10000)%Z ->
  m = JUndefined \/ (exists s, m = JString s) ->
  sanitizePrompt p <> [] ->
  callTool toLowerCase false (str "gemini_query")
    (Some {| arg_prompt := JString p; arg_model := m |}) events
  = {| logs :=
         [str "[GeminiMCP] Executing query"
          ++ modelInfo (match m with JString s => Some s | _ => None end)
          ++ str ": " ++ substring0 100 (sanitizePrompt p) ++ str "..."];
       execution :=
         Some {| spawns :=
                   [(str "gemini",
                     spawn_args (sanitizePrompt p)
                       (match m with JString s => Some s | _ => None end))];
                 signals := kills (deliver spawned events);
                 settlement := settled (deliver spawned events) |};
       result :=
         match promised (deliver spawned events) with
         | Some r =>
             if success r then Responded (output r)
             else Threw {| mcp_code := InternalError;
                           mcp_message :=
                             str "Gemini CLI error: "
                             ++ match truthy (error r) with
                                | Some e => e
                                | None => str "Unknown error"
                                end |}
         | None => Awaiting
         end |}.
Proof.
  intros Hlen Hm Hne.
  destruct (sanitized_passes_validation p Hne (proj2 Hlen)) as [Ht Hl].
  unfold callTool. rewrite unit_eqb_refl. cbn [negb].
  rewrite (schema_accepts p m Hlen Hm). cbn [prompt model].
  rewrite (execute_real_mode toLowerCase _ _ events Ht Hl).
  cbn [settlement]. unfold settled.
  destruct (promised (deliver spawned events)); reflexivity.
Qed.

(** X11.  In real mode a request the schema accepts, with something left
    of its prompt after sanitization, spawns the one command [gemini]
    with exactly four arguments: the flag -m, the requested model (the
    default model when none or an empty one is given), the flag -p, and
    the sanitized prompt as a single argument. *)
Theorem prompt_is_one_spawn_argument (p : jsstring) (m : JSValue)
  (events : list ChildEvent) :
  (1 <= Z.of_nat (List.length p) <= 10000)%Z ->
  m = JUndefined \/ (exists s, m = JString s) ->
  sanitizePrompt p <> [] ->
  exists run,
    execution
      (callTool toLowerCase false (str "gemini_query")
         (Some {| arg_prompt := JString p; arg_model := m |}) events)
    = Some run
    /\ spawns run
       = [(str "gemini",
           [str "-m";
            match m with
            | JString (c :: s) => c :: s
            | _ => str "gemini-2.5-flash"
            end;
            str "-p"; sanitizePrompt p])].
Proof.
  intros Hlen Hm Hne.
  rewrite (handler_real_mode p m events Hlen Hm Hne). cbn [execution].
  eexists. split; [reflexivity|]. cbn [spawns]. unfold spawn_args.
  destruct Hm as [-> | [[|c s] ->]]; reflexivity.
Qed.

(** X12.  In real mode, among the requests the schema accepts, those
    whose prompt sanitization empties are exactly the ones for which no
    process is spawned: the sanitized prompt passes the checks of
    [executeGeminiCommand] and reaches the call of [spawn] exactly when
    it is not empty, and an emptied prompt is answered with an internal
    error that carries the required-prompt message. *)
Theorem spawn_skipped_iff_prompt_emptied (p : jsstring) (m : JSValue)
  (events : list ChildEvent) :
  (1 <= Z.of_nat (List.length p) <= 10000)%Z ->
  m = JUndefined \/ (exists s, m = JString s) ->
  exists run,
    execution
      (callTool toLowerCase false (str "gemini_query")
         (Some {| arg_prompt := JString p; arg_model := m |}) events)
    = Some run
    /\ (spawns run = [] <-> sanitizePrompt p = [])
    /\ (sanitizePrompt p = [] ->
        run = threw "Prompt is required and must be a string"
        /\ result
             (callTool toLowerCase false (str "gemini_query")
                (Some {| arg_prompt := JString p; arg_model := m |}) events)
           = Threw {| mcp_code := InternalError;
                      mcp_message :=
                        str "Failed to execute Gemini query: Prompt is required and must be a string" |}).
Proof.
  intros Hlen Hm.
  destruct (sanitizePrompt p) as [|c t] eqn:Hs.
  - exists (threw "Prompt is required and must be a string").
    unfold callTool. rewrite unit_eqb_refl. cbn [negb].
    rewrite (schema_accepts p m Hlen Hm). cbn [prompt model]. rewrite Hs.
    cbn. repeat split.
  - assert (Hne : sanitizePrompt p <> []) by (rewrite Hs; discriminate).
    rewrite (handler_real_mode p m events Hlen Hm Hne). cbn [execution].
    eexists. split; [reflexivity|]. cbn [spawns].
    split; [split; discriminate | discriminate].
Qed.

(** X13.  What the client of a real-mode tool call gets, for a request
    the schema accepts with something left of its prompt: the trimmed
    stdout as the text of the response when the process closes first
    with code 0 and non-empty output; an internal error naming the empty
    response when that output is empty; an internal error naming the
    timeout when the timer expires first; and no answer yet as long as
    only output has arrived. *)
Theorem tool_call_outcome (p : jsstring) (m : JSValue)
  (pre post : list ChildEvent) :
  (1 <= Z.of_nat (List.length p) <= 10000)%Z ->
  m = JUndefined \/ (exists s, m = JString s) ->
  sanitizePrompt p <> [] ->
  forallb is_data pre = true ->
  (trim (collected_stdout pre) <> [] ->
   result (callTool toLowerCase false (str "gemini_query")
             (Some {| arg_prompt := JString p; arg_model := m |})
             (pre ++ Close (Some 0%Z) :: post))
   = Responded (trim (collected_stdout pre)))
  /\ (trim (collected_stdout pre) = [] ->
      result (callTool toLowerCase false (str "gemini_query")
                (Some {| arg_prompt := JString p; arg_model := m |})
                (pre ++ Close (Some 0%Z) :: post))
      = Threw {| mcp_code := InternalError;
                 mcp_message :=
                   str "Gemini CLI error: Gemini CLI returned empty response" |})
  /\ result (callTool toLowerCase false (str "gemini_query")
               (Some {| arg_prompt := JString p; arg_model := m |})
               (pre ++ TimerFired :: post))
     = Threw {| mcp_code := InternalError;
                mcp_message :=
                  str "Gemini CLI error: Command timed out after 10 seconds" |}
  /\ result (callTool toLowerCase false (str "gemini_query")
               (Some {| arg_prompt := JString p; arg_model := m |}) pre)
     = Awaiting.
Proof.
  intros Hlen Hm Hne Hpre.
  rewrite !(handler_real_mode p m _ Hlen Hm Hne). cbn [result].
  destruct (collected_before_first_event pre Hpre) as [Hout _].
  repeat split.
  - intros Ht.
    rewrite (promised_after_race pre post (Close (Some 0%Z)) _ Hpre
               eq_refl eq_refl).
    rewrite Hout. unfold close_result. cbn [is_zero Z.eqb].
    destruct (trim (collected_stdout pre)); [now elim Ht | reflexivity].
  - intros Ht.
    rewrite (promised_after_race pre post (Close (Some 0%Z)) _ Hpre
               eq_refl eq_refl).
    rewrite Hout. unfold close_result. cbn [is_zero Z.eqb]. rewrite Ht.
    reflexivity.
  - rewrite (promised_after_race pre post TimerFired _ Hpre eq_refl eq_refl).
    reflexivity.
  - unfold promised. rewrite (data_only pre Hpre). reflexivity.
Qed.

(** X14.  In simulated mode every request the schema accepts is
    answered: nothing is spawned, no error is thrown, and the response
    is the simulated text for the sanitized prompt, which is never empty
    (also when sanitization leaves nothing of the prompt). *)
Theorem simulated_call_always_answers (p : jsstring) (m : JSValue)
  (events : list ChildEvent) :
  (1 <= Z.of_nat (List.length p) <= 10000)%Z ->
  m = JUndefined \/ (exists s, m = JString s) ->
  exists text,
    text <> []
    /\ text = simulated_text toLowerCase (sanitizePrompt p)
                (match m with JString s => Some s | _ => None end)
    /\ result (callTool toLowerCase true (str "gemini_query")
                 (Some {| arg_prompt := JString p; arg_model := m |}) events)
       = Responded text
    /\ execution (callTool toLowerCase true (str "gemini_query")
                    (Some {| arg_prompt := JString p; arg_model := m |})
                    events)
       = Some {| spawns := []; signals := [];
                 settlement :=
                   Fulfilled {| success := true; output := text;
                                error := None; exitCode := None |} |}.
Proof.
  intros Hlen Hm. eexists. split; [|split; [reflexivity|]].
  - apply simulated_text_nonempty.
  - unfold callTool. rewrite unit_eqb_refl. cbn [negb].
    rewrite (schema_accepts p m Hlen Hm). cbn. split; reflexivity.
Qed.

(** X10.  How the handler sorts every request.  A name other than
    gemini_query is refused with MethodNotFound before the arguments are
    looked at.  For gemini_query, [executeGeminiCommand] is called
    exactly when the arguments hold a string prompt of 1 to 10000 units
    and a model that is a string or absent.  An error thrown by the
    handler carries MethodNotFound exactly for a wrong name and
    InternalError exactly when an execution was made. *)
Theorem tool_call_classified (TEST_MODE : bool) (name : jsstring)
  (args : option Arguments) (events : list ChildEvent) :
  (name <> str "gemini_query" ->
   callTool toLowerCase TEST_MODE name args events
   = {| logs := []; execution := None;
        result := Threw {| mcp_code := MethodNotFound;
                           mcp_message := str "Unknown tool: " ++ name |} |})
  /\ (name = str "gemini_query" ->
      (execution (callTool toLowerCase TEST_MODE name args events) <> None
       <-> exists p m,
             args = Some {| arg_prompt := JString p; arg_model := m |}
             /\ (1 <= Z.of_nat (List.length p) <= 10000)%Z
             /\ (m = JUndefined \/ exists s, m = JString s)))
  /\ (forall e,
        result (callTool toLowerCase TEST_MODE name args events) = Threw e ->
        (mcp_code e = MethodNotFound <-> name <> str "gemini_query")
        /\ (mcp_code e = InternalError
            <-> execution (callTool toLowerCase TEST_MODE name args events)
                <> None)).
Proof.
  assert (Hname : name <> str "gemini_query" ->
                  unit_eqb name (str "gemini_query") = false).
  { intros H. destruct (unit_eqb name (str "gemini_query")) eqn:E;
      [apply unit_eqb_eq in E; now elim H | reflexivity]. }
  split; [|split].
  - intros H. unfold callTool. now rewrite (Hname H).
  - intros ->. unfold callTool. rewrite unit_eqb_refl. cbn [negb].
    destruct (GeminiQuerySchema_parse args) as [issues | v] eqn:Hparse.
    + split; [intros H; now elim H|].
      intros [p [m [-> [Hlen Hm]]]].
      rewrite (schema_accepts p m Hlen Hm) in Hparse. discriminate.
    + split; [intros _; exact (schema_accepts_only args v Hparse)|].
      intros _.
      destruct (settlement _); discriminate.
  - intros e. unfold callTool.
    destruct (unit_eqb name (str "gemini_query")) eqn:E; cbn [negb].
    + apply unit_eqb_eq in E.
      destruct (GeminiQuerySchema_parse args) as [issues | v].
      * cbn. intros H. injection H as <-. cbn.
        repeat split; try discriminate; intros H; now elim H.
      * destruct (settlement _) as [reason | r |]; cbn.
        -- intros H. injection H as <-. cbn.
           repeat split; try discriminate; intros H; now elim H.
        -- destruct (success r); [discriminate|].
           intros H. injection H as <-. cbn.
           repeat split; try discriminate; intros H; now elim H.
        -- discriminate.
    + cbn. intros H. injection H as <-. cbn.
      assert (Hne : name <> str "gemini_query").
      { intros Heq. apply unit_eqb_eq in Heq. congruence. }
      repeat split; trivial; try discriminate. intros H. now elim H.
Qed.

(** X15.  The tool listing and the handler agree.  The one listed tool
    bears the name the handler accepts; the bounds it advertises for the
    prompt are those the schema enforces, counted in UTF-16 units; the
    one property it requires is the one whose absence the schema
    refuses, while an absent model is accepted; and the default model it
    advertises is the model passed to the command when none is given. *)
Theorem listing_agrees_with_handler (t : Tool) :
  In t listTools ->
  tool_name t = str "gemini_query"
  /\ (forall s,
        check_prompt (JString s) = []
        <-> (minLength (property_prompt (inputSchema t))
             <= Z.of_nat (List.length s)
             <= maxLength (property_prompt (inputSchema t)))%Z)
  /\ required (inputSchema t) = [str "prompt"]
  /\ check_prompt JUndefined
     = [{| path := [str "prompt"]; issue_message := str "Required" |}]
  /\ check_model JUndefined = []
  /\ selectedModel None = model_default (property_model (inputSchema t)).
Proof.
  intros [<- | []]. cbn -[check_prompt str].
  split; [reflexivity|]. split; [|repeat split].
  intros s. unfold check_prompt. split.
  - intros H.
    destruct (Z.of_nat (List.length s) <? 1)%Z eqn:H1; [discriminate|].
    destruct (10000 <? Z.of_nat (List.length s))%Z eqn:H2; [discriminate|].
    apply Z.ltb_ge in H1, H2. lia.
  - intros [Hlo Hhi].
    assert (H1 : (Z.of_nat (List.length s) <? 1)%Z = false)
      by (apply Z.ltb_ge; lia).
    assert (H2 : (10000 <? Z.of_nat (List.length s))%Z = false)
      by (apply Z.ltb_ge; lia).
    now rewrite H1, H2.
Qed.

End HandlerLaws.

Lemma prompt_is_one_spawn_argument_witness :
  exists run,
    Server.execution
      (Server.callTool toLowerCase_ascii false (str "gemini_query")
         (Some {| Server.arg_prompt := Server.JString (str " hi ");
                  Server.arg_model := Server.JString [] |}) [])
    = Some run
    /\ GeminiCli.spawns run
       = [(str "gemini",
           [str "-m"; str "gemini-2.5-flash"; str "-p";
            GeminiCli.sanitizePrompt (str " hi ")])].
Proof.
  apply (prompt_is_one_spawn_argument toLowerCase_ascii (str " hi ")
           (Server.JString []) []).
  - vm_compute. split; discriminate.
  - right. exists []. reflexivity.
  - discriminate.
Defined.

Lemma spawn_skipped_iff_prompt_emptied_witness :
  exists run,
    Server.execution
      (Server.callTool toLowerCase_ascii false (str "gemini_query")
         (Some {| Server.arg_prompt := Server.JString (str "   ");
                  Server.arg_model := Server.JUndefined |}) [])
    = Some run
    /\ (GeminiCli.spawns run = [] <-> GeminiCli.sanitizePrompt (str "   ") = [])
    /\ (GeminiCli.sanitizePrompt (str "   ") = [] ->
        run = GeminiCli.threw "Prompt is required and must be a string"
        /\ Server.result
             (Server.callTool toLowerCase_ascii false (str "gemini_query")
                (Some {| Server.arg_prompt := Server.JString (str "   ");
                         Server.arg_model := Server.JUndefined |}) [])
           = Server.Threw
               {| Server.mcp_code := Server.InternalError;
                  Server.mcp_message :=
                    str "Failed to execute Gemini query: Prompt is required and must be a string" |}).
Proof.
  apply (spawn_skipped_iff_prompt_emptied toLowerCase_ascii (str "   ")
           Server.JUndefined []).
  - vm_compute. split; discriminate.
  - left. reflexivity.
Defined.

Lemma tool_call_outcome_witness :
  Server.result
    (Server.callTool toLowerCase_ascii false (str "gemini_query")
       (Some {| Server.arg_prompt := Server.JString (str "What is 2+2?");
                Server.arg_model := Server.JUndefined |})
       ([GeminiCli.StdoutData [x34; x0a]]
        ++ GeminiCli.Close (Some 0%Z) :: [GeminiCli.TimerFired]))
  = Server.Responded (str "4").
Proof.
  destruct (tool_call_outcome toLowerCase_ascii (str "What is 2+2?")
              Server.JUndefined [GeminiCli.StdoutData [x34; x0a]]
              [GeminiCli.TimerFired])
    as [H _].
  - vm_compute. split; discriminate.
  - left. reflexivity.
  - discriminate.
  - reflexivity.
  - apply H. discriminate.
Defined.

Lemma simulated_call_always_answers_witness :
  exists text,
    text <> []
    /\ text = GeminiCli.simulated_text toLowerCase_ascii
                (GeminiCli.sanitizePrompt (str "   ")) None
    /\ Server.result
         (Server.callTool toLowerCase_ascii true (str "gemini_query")
            (Some {| Server.arg_prompt := Server.JString (str "   ");
                     Server.arg_model := Server.JUndefined |}) [])
       = Server.Responded text
    /\ Server.execution
         (Server.callTool toLowerCase_ascii true (str "gemini_query")
            (Some {| Server.arg_prompt := Server.JString (str "   ");
                     Server.arg_model := Server.JUndefined |}) [])
       = Some {| GeminiCli.spawns := []; GeminiCli.signals := [];
                 GeminiCli.settlement :=
                   GeminiCli.Fulfilled
                     {| GeminiCli.success := true;
                        GeminiCli.output := text;
                        GeminiCli.error := None;
                        GeminiCli.exitCode := None |} |}.
Proof.
  apply (simulated_call_always_answers toLowerCase_ascii (str "   ")
           Server.JUndefined []).
  - vm_compute. split; discriminate.
  - left. reflexivity.
Defined.

Lemma listing_agrees_with_handler_witness :
  match Server.listTools with
  | t :: _ =>
      Server.tool_name t = str "gemini_query"
      /\ (forall s,
            Server.check_prompt (Server.JString s) = []
            <-> (Server.minLength (Server.property_prompt (Server.inputSchema t))
                 <= Z.of_nat (List.length s)
                 <= Server.maxLength
                      (Server.property_prompt (Server.inputSchema t)))%Z)
      /\ Server.required (Server.inputSchema t) = [str "prompt"]
      /\ Server.check_prompt Server.JUndefined
         = [{| Server.path := [str "prompt"];
               Server.issue_message := str "Required" |}]
      /\ Server.check_model Server.JUndefined = []
      /\ GeminiCli.selectedModel None
         = Server.model_default
             (Server.property_model (Server.inputSchema t))
  | [] => True
  end.
Proof.
  unfold Server.listTools.
  apply listing_agrees_with_handler. left. reflexivity.
Defined.

(* ================================================================== *)
(** ** ASCII lines are forwarded verbatim                              *)
(* ================================================================== *)

Section VerbatimForwarding.

Import GeminiCli Server.

Variable JSON_parse : jsstring -> Completion.
Variable listeners : list Listener.

Lemma toString_ascii (l : Buffer) :
  Forall (fun b => (Byte.to_N b <= 0x7F)%N) l ->
  Buffer_toString l = map Byte.to_N l.
Proof.
  unfold Buffer_toString. induction 1 as [|b l Hb _ IH]; [reflexivity|].
  cbn [utf8_decode utf8_step map]. unfold utf8_lead.
  apply N.leb_le in Hb. rewrite Hb. cbn [app]. now rewrite IH.
Qed.

Lemma utf8_encode_ascii (t : jsstring) :
  Forall (fun c => (c <= 0x7F)%N) t -> utf8_encode t = t.
Proof.
  induction 1 as [|c t Hc _ IH]; [reflexivity|].
  cbn [utf8_encode].
  assert (Hh : isHighSurrogate c = false).
  { unfold isHighSurrogate. apply andb_false_iff. left.
    apply N.leb_gt. lia. }
  assert (Hl : isLowSurrogate c = false).
  { unfold isLowSurrogate. apply andb_false_iff. left.
    apply N.leb_gt. lia. }
  rewrite Hh, Hl, IH. unfold utf8_of_code_point.
  apply N.leb_le in Hc. now rewrite Hc.
Qed.

Lemma bytes_of_units_to_N (l : Buffer) :
  bytes_of_units (map Byte.to_N l) = l.
Proof.
  unfold bytes_of_units. rewrite map_map.
  induction l as [|b l IH]; [reflexivity|].
  cbn [map]. now rewrite Byte.of_to_N, IH.
Qed.

(** X21.  An ASCII line is forwarded byte for byte.  A chunk that is one
    non-empty line of ASCII bytes without outer white space, which
    [JSON.parse] accepts, followed by the byte 0x0A, is handed to every
    listener exactly as it came, and nothing stays in the buffer. *)
Theorem ascii_line_forwarded_verbatim (l : Buffer) :
  Forall (fun b => (Byte.to_N b <= 0x7F)%N) l ->
  ~ In x0a l ->
  l <> [] ->
  no_outer_whitespace (Buffer_toString l) ->
  JSON_parse (Buffer_toString l) = Returns ->
  Forall (fun k : Listener => forall d, k d = Returns) listeners ->
  onData JSON_parse listeners [] (l ++ [x0a])
  = ([], map (fun i => Forwarded i (l ++ [x0a]))
           (seq 0 (List.length listeners))).
Proof.
  intros Hascii Hno Hne Hws Hvalid Hret.
  rewrite (onData_lines JSON_parse listeners [] (l ++ [x0a])
             [Buffer_toString l] []).
  - f_equal. cbn [flat_map]. rewrite app_nil_r.
    unfold process_line.
    rewrite (proj2 (trim_fixed_iff _) Hws).
    destruct (Buffer_toString l) as [|c t] eqn:Ht.
    + rewrite (toString_ascii l Hascii) in Ht.
      destruct l; [now elim Hne | discriminate].
    + rewrite Hvalid, (emit_returning listeners _ Hret 0).
      rewrite <- Ht. unfold Buffer_from.
      rewrite (toString_ascii l Hascii).
      change LF with (Byte.to_N x0a).
      change (map Byte.to_N l ++ [Byte.to_N x0a])
        with (map Byte.to_N l ++ map Byte.to_N [x0a]).
      rewrite <- map_app, utf8_encode_ascii, bytes_of_units_to_N;
        [reflexivity|].
      apply Forall_map, Forall_app. split; [exact Hascii|].
      repeat constructor. cbn. lia.
  - cbn [app flat_map]. rewrite app_nil_r.
    unfold Buffer_toString.
    rewrite decode_across_line_feed by reflexivity.
    now rewrite app_nil_r.
  - constructor; [|constructor]. now apply decode_no_LF.
  - reflexivity.
Qed.

End VerbatimForwarding.

Lemma ascii_line_forwarded_verbatim_witness :
  Server.onData Json.parse [Server.returning; Server.returning] []
    ([x7b; x7d] ++ [x0a])
  = ([], map (fun i => Server.Forwarded i ([x7b; x7d] ++ [x0a]))
           (seq 0 (List.length [Server.returning; Server.returning]))).
Proof.
  apply (ascii_line_forwarded_verbatim Json.parse
           [Server.returning; Server.returning] [x7b; x7d]).
  - repeat constructor; cbn; lia.
  - apply no_x0a_spec. reflexivity.
  - discriminate.
  - split.
    + intros c r H. injection H as <- _. reflexivity.
    + intros r c H. destruct r as [|a [|b [|]]]; try discriminate.
      injection H as _ <-. reflexivity.
  - reflexivity.
  - repeat constructor.
Defined.
